(** * The articles endpoint ([netlify/functions/articles.mts])

    A shallow embedding of the single request handler of the site: a REST
    mapping of GET / POST / DELETE onto a key-value blob store holding one
    JSON document per slug.

    Conventions of the embedding.
    - A JavaScript string is a [string]; text outside ASCII appears as its
      UTF-8 bytes.  The slug sanitation replaces every unit outside
      [[a-z0-9-]] by a hyphen and then collapses runs of hyphens, so its
      result does not depend on how many units a foreign character takes.
    - A parsed JSON document is a [json] value; objects are finite maps from
      property names to values.  A number carries an integer: the handler
      never computes with a JSON number, it only tests whether it is zero.
    - [store.get] and friends, [req.json()] and property access on [null]
      can throw; the handler body runs in a state-and-exception monad [M]
      over the [world] (store contents, store failures, console).
    - [String.prototype.toLowerCase] and [new Date(x).getTime()] are
      parameters of the development; what is assumed of them is stated as
      section hypotheses. *)

From Stdlib Require Import ZArith Ascii String List Lia Bool.
From Stdlib Require Import Sorting.Sorted Sorting.Permutation.
From stdpp Require Import gmap strings.

Local Open Scope string_scope.

(** ** Characters and strings *)

Definition char_between (lo hi c : ascii) : bool :=
  (N_of_ascii lo <=? N_of_ascii c)%N && (N_of_ascii c <=? N_of_ascii hi)%N.

Definition hyphen : ascii := "-"%char.

Definition is_hyphen (c : ascii) : bool := Ascii.eqb c hyphen.

(** The character class [[a-z0-9-]]. *)
Definition is_slug_char (c : ascii) : bool :=
  char_between "a" "z" c || char_between "0" "9" c || is_hyphen c.

Definition is_ascii_char (c : ascii) : bool := (N_of_ascii c <? 128)%N.

(** What [toLowerCase] does to one ASCII character. *)
Definition ascii_lower_char (c : ascii) : ascii :=
  if char_between "A" "Z" c then ascii_of_N (N_of_ascii c + 32) else c.

Fixpoint string_map (f : ascii -> ascii) (s : string) : string :=
  match s with
  | EmptyString => EmptyString
  | String c s' => String (f c) (string_map f s')
  end.

Fixpoint string_forall (p : ascii -> bool) (s : string) : bool :=
  match s with
  | EmptyString => true
  | String c s' => p c && string_forall p s'
  end.

Definition ascii_lower (s : string) : string := string_map ascii_lower_char s.

(** [.replace(/[^a-z0-9-]/g, "-")] *)
Definition replace_non_slug (s : string) : string :=
  string_map (fun c => if is_slug_char c then c else hyphen) s.

(** [.replace(/-+/g, "-")]: of two hyphens in a row the first is dropped. *)
Fixpoint collapse_hyphens (s : string) : string :=
  match s with
  | EmptyString => EmptyString
  | String c s' =>
      match s' with
      | String d _ =>
          if is_hyphen c && is_hyphen d then collapse_hyphens s'
          else String c (collapse_hyphens s')
      | EmptyString => String c EmptyString
      end
  end.

(** [.replace(/^-|-$/g, "")]: one hyphen at the very start and one at the
    very end are removed. *)
Definition strip_leading (s : string) : string :=
  match s with
  | String c s' => if is_hyphen c then s' else s
  | EmptyString => EmptyString
  end.

Fixpoint strip_trailing (s : string) : string :=
  match s with
  | EmptyString => EmptyString
  | String c EmptyString => if is_hyphen c then EmptyString else s
  | String c s' => String c (strip_trailing s')
  end.

Definition strip_edges (s : string) : string := strip_trailing (strip_leading s).

(** Shape of a sanitized slug. *)
Fixpoint no_double_hyphen (s : string) : bool :=
  match s with
  | EmptyString => true
  | String c s' =>
      match s' with
      | String d _ => negb (is_hyphen c && is_hyphen d) && no_double_hyphen s'
      | EmptyString => true
      end
  end.

Definition no_leading_hyphen (s : string) : bool :=
  match s with
  | String c _ => negb (is_hyphen c)
  | EmptyString => true
  end.

Fixpoint no_trailing_hyphen (s : string) : bool :=
  match s with
  | EmptyString => true
  | String c EmptyString => negb (is_hyphen c)
  | String _ s' => no_trailing_hyphen s'
  end.

Section Sanitize.

(** [String.prototype.toLowerCase]. *)
Variable toLowerCase : string -> string.

(** [sanitizedSlug], lines 76-80. *)
Definition sanitize (s : string) : string :=
  strip_edges (collapse_hyphens (replace_non_slug (toLowerCase s))).

End Sanitize.

(** ** The request path *)

(** [s.split(sep)] for a one-character separator. *)
Fixpoint split (sep : ascii) (s : string) : list string :=
  match s with
  | EmptyString => [EmptyString]
  | String c s' =>
      if Ascii.eqb c sep then EmptyString :: split sep s'
      else match split sep s' with
           | p :: ps => String c p :: ps
           | [] => [String c EmptyString]
           end
  end.

(** [parts.join(sep)] *)
Fixpoint join (sep : string) (parts : list string) : string :=
  match parts with
  | [] => EmptyString
  | [p] => p
  | p :: ps => p +:+ sep +:+ join sep ps
  end.

Definition nonempty (s : string) : bool := negb (String.eqb s EmptyString).

(** Lines 22-25: [pathParts] and [slug]; [None] is [null]. *)
Definition pathParts (pathname : string) : list string :=
  List.filter nonempty (split "/" pathname).

Definition path_slug (pathname : string) : option string :=
  let parts := pathParts pathname in
  if (2 <? length parts)%nat then Some (join "/" (drop 2 parts)) else None.

(** ** JSON values and JavaScript truthiness *)

#[warnings="-register-all"]
Inductive json :=
| JNull
| JBool (b : bool)
| JNum (n : Z)
| JStr (s : string)
| JArr (items : list json)
| JObj (fields : gmap string json).

Definition truthy (v : json) : bool :=
  match v with
  | JNull => false
  | JBool b => b
  | JNum n => negb (n =? 0)%Z
  | JStr s => nonempty s
  | JArr _ | JObj _ => true
  end.

(** A property read gives a value or [undefined] ([None]). *)
Definition truthy_opt (v : option json) : bool :=
  match v with
  | Some v => truthy v
  | None => false
  end.

(** [v.k] for a [v] other than [null] and a name [k] that no prototype
    defines (slug, title, status, publishedAt, createdAt): an object gives
    its own property, anything else [undefined]. *)
Definition member (v : json) (k : string) : option json :=
  match v with
  | JObj o => o !! k
  | _ => None
  end.

(** ** Requests, responses, the store and its failures *)

Record request := Request {
  method : string;
  pathname : string;
  (** what [req.json()] parses the body to; [None] when it throws *)
  reqJson : option json
}.

Record response := Response {
  status : Z;
  contentType : string;
  (** the value handed to [JSON.stringify] *)
  body : json
}.

Definition json_response (st : Z) (b : json) : response :=
  {| status := st; contentType := "application/json"; body := b |}.

Definition error_body (msg : string) : json := JObj {[ "error" := JStr msg ]}.

Definition success_body : json := JObj {[ "success" := JBool true ]}.

Inductive exn := SyntaxError | TypeError | StoreError.

Inductive outcome (A : Type) :=
| Ok (a : A)
| Throw (e : exn).
Arguments Ok {A} a.
Arguments Throw {A} e.

(** The store keeps its blobs in the order [list()] enumerates them, a key
    at most once (the store calls keep it so).  [fault i] tells whether
    the [i]-th store call throws; [ops] counts the store calls made so
    far; [console] is what [console.error] received. *)
Record world := World {
  blobs : list (string * json);
  fault : nat -> bool;
  ops : nat;
  console : list exn
}.

Definition M (A : Type) : Type := world -> outcome A * world.

Definition ret {A} (a : A) : M A := fun w => (Ok a, w).

Definition throw {A} (e : exn) : M A := fun w => (Throw e, w).

Definition bind {A B} (m : M A) (k : A -> M B) : M B :=
  fun w =>
    match m w with
    | (Ok a, w') => k a w'
    | (Throw e, w') => (Throw e, w')
    end.

Notation "x <- c1 ;; c2" := (bind c1 (fun x => c2))
  (at level 100, c1 at next level, right associativity).

Fixpoint kv_get (key : string) (l : list (string * json)) : option json :=
  match l with
  | [] => None
  | (k, v) :: l' => if String.eqb k key then Some v else kv_get key l'
  end.

Fixpoint kv_set (key : string) (v : json) (l : list (string * json))
  : list (string * json) :=
  match l with
  | [] => [(key, v)]
  | (k, v') :: l' =>
      if String.eqb k key then (key, v) :: l' else (k, v') :: kv_set key v l'
  end.

Fixpoint kv_delete (key : string) (l : list (string * json))
  : list (string * json) :=
  match l with
  | [] => []
  | (k, v) :: l' =>
      if String.eqb k key then kv_delete key l' else (k, v) :: kv_delete key l'
  end.

Definition with_blobs (b : list (string * json)) (w : world) : world :=
  {| blobs := b; fault := fault w; ops := S (ops w); console := console w |}.

(** One call of the store: it throws when the world says so, leaving the
    blobs as they were.  The world says so when the service fails and when
    the client refuses the call, as it does for the empty key (see
    [refuses_empty_key]). *)
Definition store_call {A} (f : list (string * json) -> A * list (string * json))
  : M A :=
  fun w =>
    if fault w (ops w) then (Throw StoreError, with_blobs (blobs w) w)
    else let '(a, b) := f (blobs w) in (Ok a, with_blobs b w).

(** [store.get(key, { type: "json" })]: [null] when the key is absent. *)
Definition store_get (key : string) : M json :=
  store_call (fun b => (default JNull (kv_get key b), b)).

Definition store_setJSON (key : string) (v : json) : M unit :=
  store_call (fun b => (tt, kv_set key v b)).

Definition store_delete (key : string) : M unit :=
  store_call (fun b => (tt, kv_delete key b)).

(** [store.list()]: the keys of the blobs. *)
Definition store_list : M (list string) :=
  store_call (fun b => (map fst b, b)).

Definition req_json (req : request) : M json :=
  match reqJson req with
  | Some v => ret v
  | None => throw SyntaxError
  end.

Definition log_error (e : exn) (w : world) : world :=
  {| blobs := blobs w; fault := fault w; ops := ops w;
     console := console w ++ [e] |}.

(** ** Sorting *)

Section Sort.
Context {A : Type}.
Variable compareFn : A -> A -> Z.

Fixpoint insert_sorted (x : A) (l : list A) : list A :=
  match l with
  | [] => [x]
  | y :: l' =>
      if (compareFn x y <=? 0)%Z then x :: y :: l'
      else y :: insert_sorted x l'
  end.

(** [l.sort(compareFn)].  ECMAScript asks for a stable sort, which fixes
    the result whenever [compareFn] is a consistent comparator; here each
    element is inserted into the sorted rest, in front of the first
    element it does not come after. *)
Fixpoint array_sort (l : list A) : list A :=
  match l with
  | [] => []
  | x :: l' => insert_sorted x (array_sort l')
  end.
End Sort.

(** ** The handler *)

Definition not_found : response :=
  json_response 404 (error_body "Article not found").

Definition bad_request : response :=
  json_response 400 (error_body "Slug and title are required").

Definition slug_required : response :=
  json_response 400 (error_body "Slug is required").

Definition method_not_allowed : response :=
  json_response 405 (error_body "Method not allowed").

Definition internal_error : response :=
  json_response 500 (error_body "Internal server error").

(** Line 49: [article && article.status === "published"]. *)
Definition is_published (article : json) : bool :=
  truthy article &&
  match member article "status" with
  | Some (JStr s) => String.eqb s "published"
  | _ => false
  end.

(** Lines 47-52: the loop over [blobs], pushing onto [articles]. *)
Fixpoint collect (keys : list string) (articles : list json) : M (list json) :=
  match keys with
  | [] => ret articles
  | key :: rest =>
      article <- store_get key ;;
      collect rest
        (if is_published article then articles ++ [article] else articles)
  end.

Section Handler.

Variable toLowerCase : string -> string.

(** [new Date(x).getTime()], [None] for [NaN]; the argument is [None]
    when [x] is [undefined]. *)
Variable getTime : option json -> option Z.

(** Lines 55-57.  A [NaN] difference counts as [+0] in [sort]. *)
Definition by_date (a b : json) : Z :=
  match getTime (member b "publishedAt"), getTime (member a "publishedAt") with
  | Some tb, Some ta => (tb - ta)%Z
  | _, _ => 0%Z
  end.

(** Lines 43-61. *)
Definition list_articles : M response :=
  keys <- store_list ;;
  articles <- collect keys [] ;;
  ret (json_response 200 (JArr (array_sort by_date articles))).

(** Lines 31-41. *)
Definition get_article (key : string) : M response :=
  article <- store_get key ;;
  if negb (truthy article) then ret not_found
  else ret (json_response 200 article).

(** Lines 30, 42: [if (slug)]. *)
Definition handle_get (slug : option string) : M response :=
  match slug with
  | Some key => if nonempty key then get_article key else list_articles
  | None => list_articles
  end.

(** Line 88: [existingArticle?.createdAt || now]. *)
Definition created_at (existingArticle : json) (now : string) : json :=
  match existingArticle with
  | JNull => JStr now
  | _ =>
      match member existingArticle "createdAt" with
      | Some c => if truthy c then c else JStr now
      | None => JStr now
      end
  end.

(** Lines 85-90: the object literal with the spread of [body]. *)
Definition articleToSave (o : gmap string json) (sanitizedSlug : string)
    (existingArticle : json) (now : string) : gmap string json :=
  <[ "updatedAt" := JStr now ]>
    (<[ "createdAt" := created_at existingArticle now ]>
       (<[ "slug" := JStr sanitizedSlug ]> o)).

(** Lines 76-97, for a body [o] whose [slug] is the string [s]. *)
Definition save_article (o : gmap string json) (s now : string) : M response :=
  let sanitizedSlug := sanitize toLowerCase s in
  existingArticle <- store_get sanitizedSlug ;;
  let article := articleToSave o sanitizedSlug existingArticle now in
  _ <- store_setJSON sanitizedSlug (JObj article) ;;
  ret (json_response (if truthy existingArticle then 200 else 201)
         (JObj article)).

(** Lines 66-97.  [body.slug] throws on [null]; a primitive or an array
    has no [slug]; a truthy [slug] that is not a string has no
    [toLowerCase] to call. *)
Definition handle_post (req : request) (now : string) : M response :=
  body <- req_json req ;;
  match body with
  | JNull => throw TypeError
  | JObj o =>
      if negb (truthy_opt (o !! "slug")) || negb (truthy_opt (o !! "title"))
      then ret bad_request
      else match o !! "slug" with
           | Some (JStr s) => save_article o s now
           | _ => throw TypeError
           end
  | _ => ret bad_request
  end.

(** Lines 100-111. *)
Definition handle_delete (slug : option string) : M response :=
  match slug with
  | Some key =>
      if nonempty key then
        _ <- store_delete key ;; ret (json_response 200 success_body)
      else ret slug_required
  | None => ret slug_required
  end.

(** Lines 28-118, the [switch] inside [try]. *)
Definition handler_try (req : request) (now : string) : M response :=
  let slug := path_slug (pathname req) in
  if String.eqb (method req) "GET" then handle_get slug
  else if String.eqb (method req) "POST" then handle_post req now
  else if String.eqb (method req) "DELETE" then handle_delete slug
  else ret method_not_allowed.

(** Lines 19-126: the exported function.  [now] is what [new Date()]
    reads while the request is served. *)
Definition handler (req : request) (now : string) (w : world)
  : response * world :=
  match handler_try req now w with
  | (Ok r, w') => (r, w')
  | (Throw e, w') => (internal_error, log_error e w')
  end.

End Handler.

(** ** Instances of the two parameters for the examples *)

Definition digit (c : ascii) : option Z :=
  if char_between "0" "9" c then Some (Z.of_N (N_of_ascii c) - 48)%Z else None.

(** Days from 1970-01-01 to the given day of the proleptic Gregorian
    calendar. *)
Definition days_from_civil (y m d : Z) : Z :=
  let y' := if (m <=? 2)%Z then (y - 1)%Z else y in
  let era := (y' / 400)%Z in
  let yoe := (y' - era * 400)%Z in
  let doy := ((153 * ((m + 9) mod 12) + 2) / 5 + d - 1)%Z in
  (era * 146097 + (yoe * 365 + yoe / 4 - yoe / 100 + doy) - 719468)%Z.

Definition is_leap (y : Z) : bool :=
  ((y mod 4 =? 0) && (negb (y mod 100 =? 0) || (y mod 400 =? 0)))%Z.

Definition days_in_month (y m : Z) : Z :=
  if (m =? 2)%Z then (if is_leap y then 29 else 28)%Z
  else if ((m =? 4) || (m =? 6) || (m =? 9) || (m =? 11))%Z then 30%Z
  else 31%Z.

(** The date-only form [YYYY-MM-DD] of the ECMAScript date-time string
    format: midnight UTC of that day, in milliseconds. *)
Definition date_only (s : string) : option Z :=
  match s with
  | String y1 (String y2 (String y3 (String y4 (String "-"
      (String m1 (String m2 (String "-" (String d1 (String d2 EmptyString))))))))) =>
      a ← digit y1; b ← digit y2; c ← digit y3; e ← digit y4;
      f ← digit m1; g ← digit m2; h ← digit d1; i ← digit d2;
      let y := (a * 1000 + b * 100 + c * 10 + e)%Z in
      let m := (f * 10 + g)%Z in
      let d := (h * 10 + i)%Z in
      if ((1 <=? m) && (m <=? 12) && (1 <=? d) && (d <=? days_in_month y m))%Z
      then Some (days_from_civil y m d * 86400000)%Z
      else None
  | _ => None
  end.

(** A [getTime] for the examples below, which hand it nothing but
    [undefined] and date-only strings: on those it is what ECMAScript
    prescribes. *)
Definition getTime_date_only (x : option json) : option Z :=
  match x with
  | Some (JStr s) => date_only s
  | _ => None
  end.

(** ** Requests and worlds of the examples *)

(** A store holding [b] that never fails. *)
Definition quiet_world (b : list (string * json)) : world :=
  {| blobs := b; fault := fun _ => false; ops := 0; console := [] |}.

(** A store holding [b] whose next call throws. *)
Definition failing_world (b : list (string * json)) : world :=
  {| blobs := b; fault := fun _ => true; ops := 0; console := [] |}.

Definition post_request (v : json) : request :=
  {| method := "POST"; pathname := "/api/articles"; reqJson := Some v |}.

Definition get_request (path : string) : request :=
  {| method := "GET"; pathname := path; reqJson := None |}.

Definition delete_request (path : string) : request :=
  {| method := "DELETE"; pathname := path; reqJson := None |}.

Definition noon : string := "2024-07-01T12:00:00.000Z".

Definition article (slug title status publishedAt : string) : gmap string json :=
  {[ "slug" := JStr slug; "title" := JStr title; "status" := JStr status;
     "publishedAt" := JStr publishedAt ]}.

(** The handler with the two parameters of the examples. *)
Definition run (req : request) (now : string) (w : world) : response * world :=
  handler ascii_lower getTime_date_only req now w.

(** ** Vocabulary of the statements *)

(** The shape of a normalized slug: characters of [[a-z0-9-]] only, no two
    hyphens in a row, no hyphen at either end. *)
Definition slug_shaped (t : string) : Prop :=
  string_forall is_slug_char t = true /\
  no_double_hyphen t = true /\
  no_leading_hyphen t = true /\
  no_trailing_hyphen t = true.

(** No store call fails from [w] on. *)
Definition store_reliable (w : world) : Prop :=
  forall i, ops w <= i -> fault w i = false.


(** Some store call made between [w] and [w'] threw. *)
Definition store_threw (w w' : world) : Prop :=
  exists i, ops w <= i < ops w' /\ fault w i = true.

(** The world after [n] successful reads. *)
Fixpoint after_reads (n : nat) (w : world) : world :=
  match n with
  | O => w
  | S n' => after_reads n' (with_blobs (blobs w) w)
  end.

(** [a] may stand in front of [b] in an array sorted with [compareFn]. *)
Definition not_after {A} (compareFn : A -> A -> Z) (a b : A) : Prop :=
  (compareFn a b <= 0)%Z.

Section Dates.
Variable getTime : option json -> option Z.

(** [new Date(a.publishedAt).getTime()] *)
Definition date_of (a : json) : option Z := getTime (member a "publishedAt").

(** Both dates parse and [a] is at least as recent as [b]. *)
Definition newest_first (a b : json) : Prop :=
  match date_of a, date_of b with
  | Some ta, Some tb => (tb <= ta)%Z
  | _, _ => False
  end.

(** The timestamp an entry would sort by if an unparseable date counted
    as the epoch. *)
Definition epoch0_time (a : json) : Z := default 0%Z (date_of a).
End Dates.

(** The articles a listing is to show. *)
Definition published (b : list (string * json)) : list json :=
  List.filter is_published (map snd b).

(** The bodies a POST can carry, by what lines 66-80 make of them. *)
Inductive post_case (req : request) : Prop :=
| PostUnparsed :
    reqJson req = None -> post_case req
| PostNull :
    reqJson req = Some JNull -> post_case req
| PostMissing v :
    reqJson req = Some v -> v <> JNull ->
    truthy_opt (member v "slug") = false \/ truthy_opt (member v "title") = false ->
    post_case req
| PostSlugNotString o x :
    reqJson req = Some (JObj o) ->
    o !! "slug" = Some x -> truthy x = true -> (forall s, x <> JStr s) ->
    truthy_opt (o !! "title") = true ->
    post_case req
| PostValid o s :
    reqJson req = Some (JObj o) ->
    o !! "slug" = Some (JStr s) -> nonempty s = true ->
    truthy_opt (o !! "title") = true ->
    post_case req.

(** A computation keeps the failure schedule, only moves the call counter
    forward, and ends in an exception whenever one of its store calls threw. *)
Definition tracks_faults {A} (m : M A) : Prop :=
  forall w,
    fault (m w).2 = fault w /\
    ops w <= ops (m w).2 /\
    (store_threw w (m w).2 -> exists e, (m w).1 = Throw e).

(** What a request can do to the blobs: nothing, a write, a delete, or
    several of these in turn. *)
Inductive store_step : list (string * json) -> list (string * json) -> Prop :=
| StepNone b : store_step b b
| StepSet key v b : store_step b (kv_set key v b)
| StepDelete key b : store_step b (kv_delete key b)
| StepThen b1 b2 b3 : store_step b1 b2 -> store_step b2 b3 -> store_step b1 b3.

Definition steps_store {A} (m : M A) : Prop :=
  forall w, store_step (blobs w) (blobs (m w).2).

(** ** Vocabulary of the further properties *)

(** A lower-case letter or a digit. *)
Definition is_alnum (c : ascii) : bool :=
  char_between "a" "z" c || char_between "0" "9" c.

Fixpoint string_filter (p : ascii -> bool) (s : string) : string :=
  match s with
  | EmptyString => EmptyString
  | String c s' =>
      if p c then String c (string_filter p s') else string_filter p s'
  end.

(** The letters and digits of a string, in order. *)
Definition alnums (s : string) : string := string_filter is_alnum s.

(** [s] does not contain the character [sep]. *)
Definition no_char (sep : ascii) (s : string) : bool :=
  string_forall (fun c => negb (Ascii.eqb c sep)) s.

(** A path remainder without empty segment: not empty, no slash at either
    end, no two slashes in a row. *)
Definition no_empty_segment (k : string) : Prop :=
  Forall (fun p => nonempty p = true) (split "/" k).

(** A computation leaves the blobs as they are. *)
Definition reads_only {A} (m : M A) : Prop :=
  forall w, blobs (m w).2 = blobs w.

(** A computation writes nothing to the console. *)
Definition keeps_console {A} (m : M A) : Prop :=
  forall w, console (m w).2 = console w.

(** Every response a computation returns is JSON with a status in [S]. *)
Definition answers (S : Z -> Prop) (m : M response) : Prop :=
  forall w r, (m w).1 = Ok r ->
              S (status r) /\ contentType r = "application/json".

(** A record as the handler writes it: an object under a normalized key,
    with that key as its [slug] and truthy time stamps. *)
Definition record_ok (key : string) (v : json) : Prop :=
  slug_shaped key /\
  exists o, v = JObj o /\
            o !! "slug" = Some (JStr key) /\
            truthy_opt (o !! "createdAt") = true /\
            truthy_opt (o !! "updatedAt") = true.

Definition store_ok (b : list (string * json)) : Prop :=
  Forall (fun kv => record_ok kv.1 kv.2) b.

(** The entries of a listing whose date is [d] ([None]: unparseable). *)
Definition dated (getTime : option json -> option Z) (d : option Z)
    (l : list json) : list json :=
  List.filter (fun a => bool_decide (date_of getTime a = d)) l.

(** ** Lemmas on the sanitation passes *)

Lemma slug_char_is_ascii c : is_slug_char c = true -> is_ascii_char c = true.
Proof. destruct c as [[] [] [] [] [] [] [] []]; vm_compute; congruence. Qed.

Lemma slug_char_lower c : is_slug_char c = true -> ascii_lower_char c = c.
Proof. destruct c as [[] [] [] [] [] [] [] []]; vm_compute; congruence. Qed.

Lemma string_forall_impl (p q : ascii -> bool) s :
  (forall c, p c = true -> q c = true) ->
  string_forall p s = true -> string_forall q s = true.
Proof.
  intros Hpq. induction s as [|c s IH]; simpl; [done|].
  rewrite !andb_true_iff. intros [Hc Hs]. auto.
Qed.

Lemma string_map_id (f : ascii -> ascii) (p : ascii -> bool) s :
  (forall c, p c = true -> f c = c) ->
  string_forall p s = true -> string_map f s = s.
Proof.
  intros Hf. induction s as [|c s IH]; simpl; [done|].
  rewrite andb_true_iff. intros [Hc Hs]. by rewrite Hf, IH.
Qed.

Lemma replace_non_slug_chars s :
  string_forall is_slug_char (replace_non_slug s) = true.
Proof.
  unfold replace_non_slug.
  induction s as [|c s IH]; simpl; [done|].
  rewrite IH, andb_true_r. destruct (is_slug_char c) eqn:E; [done|].
  reflexivity.
Qed.

Lemma replace_non_slug_id s :
  string_forall is_slug_char s = true -> replace_non_slug s = s.
Proof.
  apply string_map_id. intros c Hc. by rewrite Hc.
Qed.

Lemma collapse_hyphens_cons c d s :
  collapse_hyphens (String c (String d s)) =
  if is_hyphen c && is_hyphen d then collapse_hyphens (String d s)
  else String c (collapse_hyphens (String d s)).
Proof. reflexivity. Qed.

Lemma collapse_hyphens_chars p s :
  string_forall p s = true -> string_forall p (collapse_hyphens s) = true.
Proof.
  induction s as [|c s IH]; [done|].
  cbn [string_forall]. rewrite andb_true_iff. intros [Hc Hs].
  destruct s as [|d s']; [by simpl; rewrite Hc|].
  rewrite collapse_hyphens_cons.
  destruct (is_hyphen c && is_hyphen d); [by apply IH|].
  cbn [string_forall]. rewrite Hc. by apply IH.
Qed.

Lemma collapse_hyphens_head c s :
  exists t, collapse_hyphens (String c s) = String c t.
Proof.
  revert c. induction s as [|d s IH]; intros c; [by exists EmptyString|].
  rewrite collapse_hyphens_cons. destruct (is_hyphen c && is_hyphen d) eqn:E.
  - apply andb_true_iff in E as [Hc Hd].
    apply Ascii.eqb_eq in Hc, Hd. subst. apply IH.
  - eauto.
Qed.

Lemma no_double_hyphen_cons c d s :
  no_double_hyphen (String c (String d s)) =
  negb (is_hyphen c && is_hyphen d) && no_double_hyphen (String d s).
Proof. reflexivity. Qed.

Lemma collapse_hyphens_no_double s :
  no_double_hyphen (collapse_hyphens s) = true.
Proof.
  induction s as [|c s IH]; [done|].
  destruct s as [|d s']; [done|].
  rewrite collapse_hyphens_cons.
  destruct (is_hyphen c && is_hyphen d) eqn:E; [done|].
  destruct (collapse_hyphens_head d s') as [t Ht].
  rewrite Ht in *. by rewrite no_double_hyphen_cons, E, IH.
Qed.

Lemma collapse_hyphens_id s :
  no_double_hyphen s = true -> collapse_hyphens s = s.
Proof.
  induction s as [|c s IH]; [done|].
  destruct s as [|d s']; [done|].
  rewrite no_double_hyphen_cons, andb_true_iff, negb_true_iff.
  intros [E Hs]. by rewrite collapse_hyphens_cons, E, IH.
Qed.

Lemma strip_trailing_cons c d s :
  strip_trailing (String c (String d s)) = String c (strip_trailing (String d s)).
Proof. reflexivity. Qed.

Lemma no_trailing_hyphen_cons c d s :
  no_trailing_hyphen (String c (String d s)) = no_trailing_hyphen (String d s).
Proof. reflexivity. Qed.

Lemma strip_leading_chars p s :
  string_forall p s = true -> string_forall p (strip_leading s) = true.
Proof.
  destruct s as [|c s]; [done|]. simpl.
  rewrite andb_true_iff. intros [Hc Hs].
  destruct (is_hyphen c); [done|]. simpl. by rewrite Hc.
Qed.

Lemma strip_leading_no_double s :
  no_double_hyphen s = true -> no_double_hyphen (strip_leading s) = true.
Proof.
  destruct s as [|c [|d s]]; try done.
  - simpl. by destruct (is_hyphen c).
  - rewrite no_double_hyphen_cons, andb_true_iff. intros [E Hs].
    unfold strip_leading. destruct (is_hyphen c) eqn:Hc; [done|].
    by rewrite no_double_hyphen_cons, Hs, Hc.
Qed.

Lemma strip_leading_no_leading s :
  no_double_hyphen s = true -> no_leading_hyphen (strip_leading s) = true.
Proof.
  destruct s as [|c [|d s]]; try done.
  - simpl. by destruct (is_hyphen c) eqn:E; simpl; rewrite ?E.
  - rewrite no_double_hyphen_cons, andb_true_iff. intros [E Hs].
    unfold strip_leading. destruct (is_hyphen c) eqn:Hc; simpl.
    + by destruct (is_hyphen d).
    + by rewrite Hc.
Qed.

Lemma strip_leading_id s :
  no_leading_hyphen s = true -> strip_leading s = s.
Proof.
  destruct s as [|c s]; [done|]. simpl. by intros ->%negb_true_iff.
Qed.

Lemma strip_trailing_chars p s :
  string_forall p s = true -> string_forall p (strip_trailing s) = true.
Proof.
  induction s as [|c s IH]; [done|].
  cbn [string_forall]. rewrite andb_true_iff. intros [Hc Hs].
  destruct s as [|d s'].
  - simpl. destruct (is_hyphen c); [done|]. simpl. by rewrite Hc.
  - rewrite strip_trailing_cons. cbn [string_forall]. rewrite Hc. by apply IH.
Qed.

Lemma strip_trailing_no_leading s :
  no_leading_hyphen s = true -> no_leading_hyphen (strip_trailing s) = true.
Proof.
  destruct s as [|c [|d s]]; try done.
  simpl. intros E. apply negb_true_iff in E. by rewrite E; simpl; rewrite E.
Qed.

Lemma strip_trailing_no_double s :
  no_double_hyphen s = true -> no_double_hyphen (strip_trailing s) = true.
Proof.
  induction s as [|c s IH]; [done|].
  destruct s as [|d s']; [by simpl; destruct (is_hyphen c)|].
  rewrite no_double_hyphen_cons, andb_true_iff. intros [E Hs].
  rewrite strip_trailing_cons. specialize (IH Hs).
  destruct s' as [|e s''].
  - cbn [strip_trailing]. destruct (is_hyphen d) eqn:Hd; [done|].
    by rewrite no_double_hyphen_cons, Hd, andb_false_r.
  - rewrite strip_trailing_cons in *.
    by rewrite no_double_hyphen_cons, E, IH.
Qed.

Lemma strip_trailing_no_trailing s :
  no_double_hyphen s = true -> no_trailing_hyphen (strip_trailing s) = true.
Proof.
  induction s as [|c s IH]; [done|].
  destruct s as [|d s']; [by simpl; destruct (is_hyphen c) eqn:E; simpl; rewrite ?E|].
  rewrite no_double_hyphen_cons, andb_true_iff. intros [E Hs].
  rewrite strip_trailing_cons. specialize (IH Hs).
  destruct s' as [|e s''].
  - cbn [strip_trailing]. destruct (is_hyphen d) eqn:Hd.
    + rewrite andb_true_r in E. simpl. exact E.
    + rewrite no_trailing_hyphen_cons. simpl. by rewrite Hd.
  - rewrite strip_trailing_cons in *. by rewrite no_trailing_hyphen_cons.
Qed.

Lemma strip_trailing_id s :
  no_trailing_hyphen s = true -> strip_trailing s = s.
Proof.
  induction s as [|c s IH]; [done|].
  destruct s as [|d s']; [by simpl; intros ->%negb_true_iff|].
  rewrite no_trailing_hyphen_cons, strip_trailing_cons. by intros ->%IH.
Qed.

(** ** Sanitation: shape of the result and idempotence *)

Lemma sanitize_shaped toLowerCase s : slug_shaped (sanitize toLowerCase s).
Proof.
  unfold sanitize, strip_edges.
  pose proof (replace_non_slug_chars (toLowerCase s)) as Hc.
  apply collapse_hyphens_chars in Hc.
  pose proof (collapse_hyphens_no_double (replace_non_slug (toLowerCase s))) as Hd.
  repeat split.
  - by apply strip_trailing_chars, strip_leading_chars.
  - by apply strip_trailing_no_double, strip_leading_no_double.
  - by apply strip_trailing_no_leading, strip_leading_no_leading.
  - by apply strip_trailing_no_trailing, strip_leading_no_double.
Qed.

Section SanitizeProperties.

Variable toLowerCase : string -> string.

(** On ASCII text [toLowerCase] maps [A-Z] to [a-z] and nothing else. *)
Hypothesis toLowerCase_ascii :
  forall s, string_forall is_ascii_char s = true ->
            toLowerCase s = ascii_lower s.

Lemma toLowerCase_slug_chars t :
  string_forall is_slug_char t = true -> toLowerCase t = t.
Proof.
  intros Ht. rewrite toLowerCase_ascii.
  - by apply (string_map_id _ is_slug_char); [apply slug_char_lower|].
  - revert Ht. apply string_forall_impl, slug_char_is_ascii.
Qed.

Lemma sanitize_fixed t : slug_shaped t -> sanitize toLowerCase t = t.
Proof.
  intros (Hc & Hd & Hl & Ht). unfold sanitize, strip_edges.
  rewrite toLowerCase_slug_chars by done.
  rewrite replace_non_slug_id by done.
  rewrite collapse_hyphens_id by done.
  rewrite strip_leading_id by done.
  by apply strip_trailing_id.
Qed.

(** C2.  Sanitizing a slug twice gives what sanitizing it once gives, for
    every string; "Hello World!" becomes "hello-world" and "--a--b--"
    becomes "a-b". *)
Theorem sanitize_idempotent :
  (forall s, sanitize toLowerCase (sanitize toLowerCase s)
             = sanitize toLowerCase s) /\
  sanitize toLowerCase "Hello World!" = "hello-world" /\
  sanitize toLowerCase "--a--b--" = "a-b".
Proof.
  split; [|split].
  - intros s. apply sanitize_fixed, sanitize_shaped.
  - unfold sanitize. by rewrite toLowerCase_ascii.
  - unfold sanitize. by rewrite toLowerCase_ascii.
Qed.

End SanitizeProperties.

Lemma sanitize_idempotent_witness :
  (forall s, string_forall is_ascii_char s = true -> ascii_lower s = ascii_lower s) /\
  (forall s, sanitize ascii_lower (sanitize ascii_lower s) = sanitize ascii_lower s) /\
  sanitize ascii_lower "Hello World!" = "hello-world" /\
  sanitize ascii_lower "--a--b--" = "a-b".
Proof.
  split; [reflexivity|].
  apply (sanitize_idempotent ascii_lower). reflexivity.
Defined.

(** ** The key-value operations of the store *)

Lemma kv_get_set_eq key v l : kv_get key (kv_set key v l) = Some v.
Proof.
  induction l as [|[k v'] l IH]; simpl.
  - by rewrite String.eqb_refl.
  - destruct (String.eqb k key) eqn:E; simpl.
    + by rewrite String.eqb_refl.
    + by rewrite E.
Qed.

Lemma kv_get_set_ne key key' v l :
  key <> key' -> kv_get key' (kv_set key v l) = kv_get key' l.
Proof.
  intros Hne. induction l as [|[k v'] l IH]; simpl.
  - by apply String.eqb_neq in Hne as ->.
  - destruct (String.eqb k key) eqn:E; simpl.
    + apply String.eqb_eq in E as ->.
      by apply String.eqb_neq in Hne as ->.
    + by rewrite IH.
Qed.

Lemma kv_get_delete_eq key l : kv_get key (kv_delete key l) = None.
Proof.
  induction l as [|[k v] l IH]; simpl; [done|].
  destruct (String.eqb k key) eqn:E; simpl; [done|]. by rewrite E.
Qed.

Lemma kv_get_delete_ne key key' l :
  key <> key' -> kv_get key' (kv_delete key l) = kv_get key' l.
Proof.
  intros Hne. induction l as [|[k v] l IH]; simpl; [done|].
  destruct (String.eqb k key) eqn:E; simpl.
  - apply String.eqb_eq in E as ->.
    by apply String.eqb_neq in Hne as ->.
  - by rewrite IH.
Qed.

Lemma kv_delete_absent key l : kv_get key l = None -> kv_delete key l = l.
Proof.
  induction l as [|[k v] l IH]; simpl; [done|].
  destruct (String.eqb k key); [done|]. by intros ->%IH.
Qed.

Lemma kv_get_keys l :
  NoDup (map fst l) ->
  map (fun key => default JNull (kv_get key l)) (map fst l) = map snd l.
Proof.
  induction l as [|[k v] l IH]; simpl; [done|].
  intros Hnd. apply NoDup_cons in Hnd as [Hk Hnd].
  rewrite String.eqb_refl. simpl. f_equal.
  rewrite <- (IH Hnd). apply map_ext_in. intros key Hin.
  destruct (String.eqb k key) eqn:E; [|done].
  apply String.eqb_eq in E. subst. by apply list_elem_of_In in Hin.
Qed.

Lemma kv_set_not_in key v l x :
  x <> key -> x ∉ map fst l -> x ∉ map fst (kv_set key v l).
Proof.
  intros Hx. induction l as [|[k v'] l IH]; simpl.
  - intros _. rewrite not_elem_of_cons. split; [done|apply not_elem_of_nil].
  - rewrite not_elem_of_cons. intros [Hk Hl].
    destruct (String.eqb k key); simpl; rewrite not_elem_of_cons; auto.
Qed.

Lemma kv_set_NoDup key v l :
  NoDup (map fst l) -> NoDup (map fst (kv_set key v l)).
Proof.
  induction l as [|[k v'] l IH]; simpl.
  - intros _. apply NoDup_singleton.
  - rewrite NoDup_cons. intros [Hk Hnd].
    destruct (String.eqb k key) eqn:E; simpl; rewrite NoDup_cons.
    + apply String.eqb_eq in E as <-. auto.
    + apply String.eqb_neq in E. split; [by apply kv_set_not_in|auto].
Qed.

Lemma kv_delete_not_in key l x :
  x ∉ map fst l -> x ∉ map fst (kv_delete key l).
Proof.
  induction l as [|[k v] l IH]; simpl; [done|].
  rewrite not_elem_of_cons. intros [Hk Hl].
  destruct (String.eqb k key); simpl; rewrite ?not_elem_of_cons; auto.
Qed.

Lemma kv_delete_NoDup key l :
  NoDup (map fst l) -> NoDup (map fst (kv_delete key l)).
Proof.
  induction l as [|[k v] l IH]; simpl; [done|].
  rewrite NoDup_cons. intros [Hk Hnd].
  destruct (String.eqb k key); simpl; rewrite ?NoDup_cons; auto.
  split; [by apply kv_delete_not_in|auto].
Qed.

(** The keys of the store stay distinct whatever is done to it. *)
Lemma store_step_NoDup b b' :
  store_step b b' -> NoDup (map fst b) -> NoDup (map fst b').
Proof.
  induction 1; auto using kv_set_NoDup, kv_delete_NoDup.
Qed.

(** ** Running store calls *)

Lemma store_call_ok {A} (f : list (string * json) -> A * list (string * json)) w :
  fault w (ops w) = false ->
  store_call f w = (Ok (f (blobs w)).1, with_blobs (f (blobs w)).2 w).
Proof. intros H. unfold store_call. rewrite H. by destruct (f (blobs w)). Qed.

Lemma store_reliable_now w : store_reliable w -> fault w (ops w) = false.
Proof. intros H. by apply H. Qed.

Lemma store_reliable_with_blobs b w :
  store_reliable w -> store_reliable (with_blobs b w).
Proof. intros H i Hi. simpl in *. apply H. lia. Qed.

Create HintDb store.
#[local] Hint Resolve store_reliable_now store_reliable_with_blobs : store.

Lemma bind_ok {A B} (m : M A) (k : A -> M B) w a w' :
  m w = (Ok a, w') -> bind m k w = k a w'.
Proof. intros H. unfold bind. by rewrite H. Qed.

Lemma after_reads_blobs n w : blobs (after_reads n w) = blobs w.
Proof. revert w. induction n as [|n IH]; intros w; simpl; [done|]. by rewrite IH. Qed.

Lemma after_reads_reliable n w :
  store_reliable w -> store_reliable (after_reads n w).
Proof. revert w. induction n as [|n IH]; intros w H; simpl; auto with store. Qed.

Lemma collect_reliable keys articles w :
  store_reliable w ->
  collect keys articles w =
  (Ok (articles ++
       List.filter is_published
         (map (fun key => default JNull (kv_get key (blobs w))) keys))%list,
   after_reads (length keys) w).
Proof.
  revert articles w. induction keys as [|key keys IH]; intros articles w Hw.
  - simpl. unfold ret. by rewrite app_nil_r.
  - cbn [collect]. unfold store_get.
    erewrite bind_ok by (apply store_call_ok; auto with store).
    cbn [fst snd]. rewrite IH by auto with store.
    cbn [length after_reads map List.filter blobs with_blobs].
    destruct (is_published _); [|done].
    by rewrite <- app_assoc.
Qed.

(** ** Sorting *)

Section SortProperties.
Context {A : Type}.
Variable compareFn : A -> A -> Z.

Lemma insert_sorted_perm x l : Permutation (x :: l) (insert_sorted compareFn x l).
Proof.
  induction l as [|y l IH]; simpl; [done|].
  destruct (compareFn x y <=? 0)%Z; [done|].
  rewrite perm_swap. by constructor.
Qed.

Lemma array_sort_perm l : Permutation l (array_sort compareFn l).
Proof.
  induction l as [|x l IH]; simpl; [done|].
  rewrite <- insert_sorted_perm. by constructor.
Qed.

(** An array that is in order already is left as it is. *)
Lemma array_sort_in_order l :
  Sorted (not_after compareFn) l -> array_sort compareFn l = l.
Proof.
  induction 1 as [|x l Hs IH Hhd]; simpl; [done|]. rewrite IH.
  destruct Hhd as [|y l Hxy]; simpl; [done|].
  by apply Z.leb_le in Hxy as ->.
Qed.

(** Whenever [a] is to come after [b], [b] is not to come after [a]. *)
Hypothesis compareFn_asym :
  forall a b, (0 < compareFn a b)%Z -> (compareFn b a <= 0)%Z.

Lemma insert_sorted_HdRel y x l :
  (not_after compareFn) y x -> HdRel (not_after compareFn) y l ->
  HdRel (not_after compareFn) y (insert_sorted compareFn x l).
Proof.
  intros Hyx Hl. destruct l as [|z l]; simpl; [by constructor|].
  destruct (compareFn x z <=? 0)%Z; constructor; [done|].
  by inversion Hl.
Qed.

Lemma insert_sorted_Sorted x l :
  Sorted (not_after compareFn) l -> Sorted (not_after compareFn) (insert_sorted compareFn x l).
Proof.
  induction 1 as [|y l Hs IH Hhd]; simpl; [by repeat constructor|].
  destruct (compareFn x y <=? 0)%Z eqn:E.
  - apply Z.leb_le in E. by repeat constructor.
  - apply Z.leb_gt in E. constructor; [done|].
    apply insert_sorted_HdRel; [|done]. by apply compareFn_asym.
Qed.

Lemma array_sort_Sorted l : Sorted (not_after compareFn) (array_sort compareFn l).
Proof.
  induction l as [|x l IH]; simpl; [constructor|].
  by apply insert_sorted_Sorted.
Qed.

End SortProperties.

Lemma Sorted_weaken {A} (R R' : A -> A -> Prop) (P : A -> Prop) l :
  (forall a b, P a -> P b -> R a b -> R' a b) ->
  Forall P l -> Sorted R l -> Sorted R' l.
Proof.
  intros HR HP Hs. induction Hs as [|x l Hs IH Hhd]; [constructor|].
  apply Forall_cons in HP as [Hx Hl]. constructor; [by apply IH|].
  destruct Hhd as [|y l Hxy]; constructor.
  apply Forall_cons in Hl as [Hy _]. by apply HR.
Qed.

(** ** The slug of the path *)

Lemma nonempty_app s t : nonempty s = true -> nonempty (s +:+ t) = true.
Proof. by destruct s. Qed.

Lemma join_nonempty sep p ps : nonempty p = true -> nonempty (join sep (p :: ps)) = true.
Proof.
  intros Hp. destruct ps as [|q ps]; simpl; [done|]. by apply nonempty_app.
Qed.

Lemma path_slug_nonempty pathname key :
  path_slug pathname = Some key -> nonempty key = true.
Proof.
  unfold path_slug.
  assert (Forall (fun p => nonempty p = true) (pathParts pathname)) as Hall.
  { apply List.Forall_forall. intros p Hp. by apply filter_In in Hp as [_ Hp]. }
  destruct (pathParts pathname) as [|a [|b [|c parts]]]; simpl; try done.
  intros [= <-]. apply join_nonempty.
  by do 2 apply Forall_cons in Hall as [_ Hall]; apply Forall_cons in Hall as [Hc _].
Qed.

(** ** The handler, request by request *)

Section HandlerProperties.

Variable toLowerCase : string -> string.
Variable getTime : option json -> option Z.

(** On ASCII text [toLowerCase] maps [A-Z] to [a-z] and nothing else. *)
Hypothesis toLowerCase_ascii :
  forall s, string_forall is_ascii_char s = true ->
            toLowerCase s = ascii_lower s.

Lemma get_article_run key w :
  fault w (ops w) = false ->
  get_article key w =
  (Ok (if truthy (default JNull (kv_get key (blobs w)))
       then json_response 200 (default JNull (kv_get key (blobs w)))
       else not_found),
   with_blobs (blobs w) w).
Proof.
  intros Hf. unfold get_article, store_get.
  erewrite bind_ok by by apply store_call_ok.
  cbn [fst snd]. by destruct (truthy _).
Qed.

Lemma handler_get_slug req now w key :
  method req = "GET" ->
  path_slug (pathname req) = Some key ->
  fault w (ops w) = false ->
  handler toLowerCase getTime req now w =
  (if truthy (default JNull (kv_get key (blobs w)))
   then json_response 200 (default JNull (kv_get key (blobs w)))
   else not_found,
   with_blobs (blobs w) w).
Proof.
  intros Hm Hslug Hf. unfold handler, handler_try. rewrite Hm, Hslug.
  cbn [String.eqb Ascii.eqb Bool.eqb handle_get].
  by rewrite (path_slug_nonempty _ _ Hslug), get_article_run.
Qed.

Lemma handler_delete_slug req now w key :
  method req = "DELETE" ->
  path_slug (pathname req) = Some key ->
  fault w (ops w) = false ->
  handler toLowerCase getTime req now w =
  (json_response 200 success_body, with_blobs (kv_delete key (blobs w)) w).
Proof.
  intros Hm Hslug Hf. unfold handler, handler_try. rewrite Hm, Hslug.
  cbn [String.eqb Ascii.eqb Bool.eqb handle_delete].
  rewrite (path_slug_nonempty _ _ Hslug).
  unfold store_delete. by erewrite bind_ok by by apply store_call_ok.
Qed.

(** C5.  A GET with a slug segment reads the store under exactly that
    key: a stored article (a truthy value, so every JSON object) comes back
    with status 200, whatever its status field says, a draft too; and a
    key that holds nothing gives 404 with the body
    [{"error":"Article not found"}]. *)
Theorem get_by_slug req now w key :
  method req = "GET" ->
  path_slug (pathname req) = Some key ->
  fault w (ops w) = false ->
  let res := handler toLowerCase getTime req now w in
  blobs res.2 = blobs w /\
  (forall article,
      kv_get key (blobs w) = Some article -> truthy article = true ->
      res.1 = json_response 200 article) /\
  (forall o,
      kv_get key (blobs w) = Some (JObj o) ->
      res.1 = json_response 200 (JObj o)) /\
  (kv_get key (blobs w) = None ->
   res.1 = json_response 404 (error_body "Article not found")).
Proof.
  intros Hm Hslug Hf res. subst res.
  rewrite (handler_get_slug req now w key Hm Hslug Hf).
  cbn [fst snd]. split; [done|]. split; [|split].
  - intros article -> Ht. simpl. by rewrite Ht.
  - by intros o ->.
  - by intros ->.
Qed.

(** C6.  A DELETE without a slug segment answers 400 with the body
    [{"error":"Slug is required"}] and leaves the world as it was; with a
    slug it deletes under exactly that key, leaves the other keys alone
    and answers 200 with [{"success":true}], also when the key held
    nothing. *)
Theorem delete_by_slug req now w :
  method req = "DELETE" ->
  let res := handler toLowerCase getTime req now w in
  (path_slug (pathname req) = None ->
   res = (json_response 400 (error_body "Slug is required"), w)) /\
  (forall key,
      path_slug (pathname req) = Some key ->
      fault w (ops w) = false ->
      res.1 = json_response 200 success_body /\
      blobs res.2 = kv_delete key (blobs w) /\
      kv_get key (blobs res.2) = None /\
      (forall other, key <> other ->
                     kv_get other (blobs res.2) = kv_get other (blobs w)) /\
      (kv_get key (blobs w) = None -> blobs res.2 = blobs w)).
Proof.
  intros Hm res. subst res. split.
  - intros Hslug. unfold handler, handler_try. by rewrite Hm, Hslug.
  - intros key Hslug Hf. rewrite (handler_delete_slug req now w key Hm Hslug Hf).
    cbn [fst snd blobs with_blobs].
    split; [done|]. split; [done|]. split; [apply kv_get_delete_eq|].
    split; [intros other; apply kv_get_delete_ne|apply kv_delete_absent].
Qed.

(** *** POST *)

Lemma created_at_kept existing now c :
  truthy existing = true ->
  member existing "createdAt" = Some c -> truthy c = true ->
  created_at existing now = c.
Proof.
  intros He Hc Ht. unfold created_at. rewrite Hc, Ht. by destruct existing.
Qed.

Lemma created_at_fallback existing now :
  truthy_opt (member existing "createdAt") = false ->
  created_at existing now = JStr now.
Proof.
  unfold created_at. destruct (member existing "createdAt") as [c|]; simpl.
  - intros ->. by destruct existing.
  - by destruct existing.
Qed.

Lemma created_at_origin l key now :
  let c := created_at (default JNull (kv_get key l)) now in
  c = JStr now \/
  exists prior, kv_get key l = Some prior /\ member prior "createdAt" = Some c.
Proof.
  intros c. subst c. destruct (kv_get key l) as [prior|]; [|by left].
  simpl default. unfold created_at.
  destruct (member prior "createdAt") as [c|] eqn:Hc; [|by left; destruct prior].
  destruct (truthy c); [|by left; destruct prior].
  right. exists prior. split; [done|]. rewrite Hc. by destruct prior.
Qed.

Lemma articleToSave_updatedAt o key existing now :
  articleToSave o key existing now !! "updatedAt" = Some (JStr now).
Proof. unfold articleToSave. by simplify_map_eq. Qed.

Lemma articleToSave_createdAt o key existing now :
  articleToSave o key existing now !! "createdAt"
  = Some (created_at existing now).
Proof. unfold articleToSave. by simplify_map_eq. Qed.

Lemma articleToSave_slug o key existing now :
  articleToSave o key existing now !! "slug" = Some (JStr key).
Proof. unfold articleToSave. by simplify_map_eq. Qed.

Lemma save_article_run o s now w :
  store_reliable w ->
  save_article toLowerCase o s now w =
  let key := sanitize toLowerCase s in
  let existing := default JNull (kv_get key (blobs w)) in
  let article := articleToSave o key existing now in
  (Ok (json_response (if truthy existing then 200 else 201) (JObj article)),
   with_blobs (kv_set key (JObj article) (blobs w)) (with_blobs (blobs w) w)).
Proof.
  intros Hw. unfold save_article, store_get, store_setJSON.
  erewrite bind_ok by (apply store_call_ok; auto with store).
  erewrite bind_ok by (apply store_call_ok; auto with store).
  reflexivity.
Qed.

(** Whatever the store does, saving ends in 200, 201 or a store error. *)
Lemma save_article_outcome o s now w :
  match (save_article toLowerCase o s now w).1 with
  | Ok r =>
      let key := sanitize toLowerCase s in
      let existing := default JNull (kv_get key (blobs w)) in
      let article := articleToSave o key existing now in
      (status r = 200 \/ status r = 201)%Z /\
      body r = JObj article /\
      blobs (save_article toLowerCase o s now w).2
      = kv_set key (JObj article) (blobs w)
  | Throw e => e = StoreError
  end.
Proof.
  unfold save_article, store_get, store_setJSON, bind, store_call.
  destruct (fault w (ops w)) eqn:E1; [done|]. cbn [fst snd with_blobs fault ops].
  destruct (fault w (S (ops w))) eqn:E2; [done|]. cbn [fst snd ret status].
  split; [|done]. destruct (truthy _); auto.
Qed.

Lemma post_case_total req : post_case req.
Proof.
  destruct (reqJson req) as [v|] eqn:Hb; [|by apply PostUnparsed].
  destruct v as [| | | | |o];
    try (by apply (PostMissing _ _ Hb); [|left]); [by apply PostNull|].
  destruct (truthy_opt (o !! "slug")) eqn:Hs;
    [|by apply (PostMissing _ _ Hb); [|left]].
  destruct (truthy_opt (o !! "title")) eqn:Ht;
    [|by apply (PostMissing _ _ Hb); [|right]].
  destruct (o !! "slug") as [x|] eqn:Hx; [|done]. simpl in Hs.
  destruct x as [| | |s| |];
    try (by apply (PostSlugNotString _ o _ Hb Hx)).
  by apply (PostValid _ o s).
Qed.

Lemma handle_post_unparsed req now w :
  reqJson req = None ->
  handle_post toLowerCase req now w = (Throw SyntaxError, w).
Proof. intros Hb. unfold handle_post, req_json. by rewrite Hb. Qed.

Lemma handle_post_null req now w :
  reqJson req = Some JNull ->
  handle_post toLowerCase req now w = (Throw TypeError, w).
Proof. intros Hb. unfold handle_post, req_json. by rewrite Hb. Qed.

Lemma handle_post_missing req now w v :
  reqJson req = Some v -> v <> JNull ->
  truthy_opt (member v "slug") = false \/ truthy_opt (member v "title") = false ->
  handle_post toLowerCase req now w = (Ok bad_request, w).
Proof.
  intros Hb Hv Hf. unfold handle_post, req_json. rewrite Hb.
  unfold bind, ret. destruct v as [| | | | |o]; try done. simpl in Hf.
  by destruct Hf as [-> | ->]; rewrite ?orb_true_r.
Qed.

Lemma handle_post_slug_not_string req now w o x :
  reqJson req = Some (JObj o) ->
  o !! "slug" = Some x -> truthy x = true -> (forall s, x <> JStr s) ->
  truthy_opt (o !! "title") = true ->
  handle_post toLowerCase req now w = (Throw TypeError, w).
Proof.
  intros Hb Hx Hs Hn Ht. unfold handle_post, req_json. rewrite Hb.
  unfold bind, ret. rewrite Hx, Ht. simpl. rewrite Hs. simpl.
  destruct x; try done. by destruct (Hn s).
Qed.

Lemma handle_post_valid req now o s :
  reqJson req = Some (JObj o) ->
  o !! "slug" = Some (JStr s) -> nonempty s = true ->
  truthy_opt (o !! "title") = true ->
  forall w, handle_post toLowerCase req now w = save_article toLowerCase o s now w.
Proof.
  intros Hb Hs Hne Ht w. unfold handle_post, req_json. rewrite Hb.
  unfold bind, ret. rewrite Hs, Ht. simpl. by rewrite Hne.
Qed.

Lemma handler_post req now w :
  method req = "POST" ->
  handler toLowerCase getTime req now w =
  match handle_post toLowerCase req now w with
  | (Ok r, w') => (r, w')
  | (Throw e, w') => (internal_error, log_error e w')
  end.
Proof. intros Hm. unfold handler, handler_try. by rewrite Hm. Qed.

Lemma handler_post_valid req now o s w :
  method req = "POST" ->
  reqJson req = Some (JObj o) ->
  o !! "slug" = Some (JStr s) -> nonempty s = true ->
  truthy_opt (o !! "title") = true ->
  store_reliable w ->
  handler toLowerCase getTime req now w =
  let key := sanitize toLowerCase s in
  let existing := default JNull (kv_get key (blobs w)) in
  let article := articleToSave o key existing now in
  (json_response (if truthy existing then 200 else 201) (JObj article),
   with_blobs (kv_set key (JObj article) (blobs w)) (with_blobs (blobs w) w)).
Proof.
  intros Hm Hb Hs Hne Ht Hw. unfold handler, handler_try. rewrite Hm.
  cbn [String.eqb Ascii.eqb Bool.eqb].
  rewrite (handle_post_valid _ _ _ _ Hb Hs Hne Ht).
  by rewrite save_article_run.
Qed.

(** C1, amended.  A POST whose body is an object with a non-empty string
    [slug] and a truthy [title], on a store that answers: the saved
    record carries [updatedAt] = now; when the store holds nothing under
    the sanitized slug the status is 201 and [createdAt] = now; when it
    holds a record there the status is 200 and [createdAt] is that
    record's [createdAt] if it has a truthy one, and now otherwise. *)
Theorem post_create_or_update req now w o s :
  method req = "POST" ->
  reqJson req = Some (JObj o) ->
  o !! "slug" = Some (JStr s) -> nonempty s = true ->
  truthy_opt (o !! "title") = true ->
  store_reliable w ->
  let key := sanitize toLowerCase s in
  let res := handler toLowerCase getTime req now w in
  exists saved,
    body res.1 = JObj saved /\
    kv_get key (blobs res.2) = Some (JObj saved) /\
    saved !! "updatedAt" = Some (JStr now) /\
    (kv_get key (blobs w) = None ->
     status res.1 = 201%Z /\ saved !! "createdAt" = Some (JStr now)) /\
    (forall existing,
        kv_get key (blobs w) = Some existing -> truthy existing = true ->
        status res.1 = 200%Z /\
        (forall c, member existing "createdAt" = Some c -> truthy c = true ->
                   saved !! "createdAt" = Some c) /\
        (truthy_opt (member existing "createdAt") = false ->
         saved !! "createdAt" = Some (JStr now))).
Proof.
  intros Hm Hb Hs Hne Ht Hw key res. subst res.
  rewrite (handler_post_valid _ _ _ _ _ Hm Hb Hs Hne Ht Hw).
  cbn zeta. fold key. cbn [fst snd body status json_response blobs with_blobs].
  eexists. split; [done|]. split; [apply kv_get_set_eq|].
  split; [apply articleToSave_updatedAt|]. split.
  - intros ->. by rewrite articleToSave_createdAt.
  - intros existing -> He. simpl default. rewrite He. split; [done|].
    rewrite articleToSave_createdAt. split.
    + intros c Hc Hct. by rewrite (created_at_kept _ _ _ He Hc Hct).
    + intros Hf. by rewrite created_at_fallback.
Qed.

(** C4.  After a successful POST the record in the store is the object of
    the request body with [slug] set to the sanitized slug and
    [createdAt] and [updatedAt] stamped, and nothing else: [createdAt] is
    the current time or the [createdAt] of the prior record, and every
    other field of the saved record is the field of the body, so a field
    that the prior record had and the body has not is gone. *)
Theorem post_replaces_record req now w :
  method req = "POST" ->
  let res := handler toLowerCase getTime req now w in
  (status res.1 = 200 \/ status res.1 = 201)%Z ->
  exists o s c,
    reqJson req = Some (JObj o) /\ o !! "slug" = Some (JStr s) /\
    let key := sanitize toLowerCase s in
    let saved := <[ "updatedAt" := JStr now ]>
                   (<[ "createdAt" := c ]> (<[ "slug" := JStr key ]> o)) in
    blobs res.2 = kv_set key (JObj saved) (blobs w) /\
    kv_get key (blobs res.2) = Some (JObj saved) /\
    body res.1 = JObj saved /\
    (c = JStr now \/
     exists prior, kv_get key (blobs w) = Some prior /\
                   member prior "createdAt" = Some c) /\
    (forall k, k <> "slug" -> k <> "createdAt" -> k <> "updatedAt" ->
               saved !! k = o !! k) /\
    (forall prior k,
        kv_get key (blobs w) = Some (JObj prior) -> is_Some (prior !! k) ->
        o !! k = None ->
        k <> "slug" -> k <> "createdAt" -> k <> "updatedAt" ->
        saved !! k = None).
Proof.
  intros Hm res. subst res. rewrite (handler_post _ _ _ Hm).
  destruct (post_case_total req) as [Hb|Hb|v Hb Hv Hf|o x Hb Hx Hs Hn Ht|o s Hb Hs Hne Ht].
  - rewrite handle_post_unparsed by done. by intros [|].
  - rewrite handle_post_null by done. by intros [|].
  - rewrite (handle_post_missing _ _ _ v) by done. by intros [|].
  - rewrite (handle_post_slug_not_string _ _ _ o x) by done. by intros [|].
  - rewrite (handle_post_valid _ _ _ _ Hb Hs Hne Ht).
    pose proof (save_article_outcome o s now w) as Hout.
    destruct (save_article toLowerCase o s now w) as [[r|e] w'];
      [|by intros [|]].
    cbn [fst snd] in *. destruct Hout as (_ & Hbody & Hblobs). intros _.
    exists o, s,
      (created_at (default JNull (kv_get (sanitize toLowerCase s) (blobs w))) now).
    split; [done|]. split; [done|]. cbn zeta.
    split; [done|]. split; [rewrite Hblobs; apply kv_get_set_eq|].
    split; [done|]. split; [apply created_at_origin|]. split.
    + intros k ???. by simplify_map_eq.
    + intros prior k _ _ Hk ???. by simplify_map_eq.
Qed.


(** C10, amended.  GET by slug and DELETE take the slug of the path as the
    key, POST writes under the sanitized slug of the body.  So whenever the
    sanitized form of a posted raw slug differs from the key that the path
    of a later request yields, that request misses the posted record: a
    DELETE deletes under the key of the path and leaves the posted record
    in the store, and a GET reads the key of the path: it answers what it
    would have answered before the POST, 404 when the store held nothing
    under that key. *)
Theorem raw_slug_misses_posted_record post get del now now' w o raw key :
  method post = "POST" ->
  reqJson post = Some (JObj o) ->
  o !! "slug" = Some (JStr raw) -> nonempty raw = true ->
  truthy_opt (o !! "title") = true ->
  method get = "GET" -> path_slug (pathname get) = Some key ->
  method del = "DELETE" -> path_slug (pathname del) = Some key ->
  sanitize toLowerCase raw <> key ->
  store_reliable w ->
  let posted := handler toLowerCase getTime post now w in
  let deleted := handler toLowerCase getTime del now' posted.2 in
  let got := handler toLowerCase getTime get now' posted.2 in
  exists saved,
    body posted.1 = JObj saved /\
    kv_get (sanitize toLowerCase raw) (blobs posted.2) = Some (JObj saved) /\
    deleted.1 = json_response 200 success_body /\
    blobs deleted.2 = kv_delete key (blobs posted.2) /\
    kv_get (sanitize toLowerCase raw) (blobs deleted.2) = Some (JObj saved) /\
    kv_get key (blobs posted.2) = kv_get key (blobs w) /\
    got.1 = (handler toLowerCase getTime get now' w).1 /\
    (kv_get key (blobs w) = None ->
     got.1 = json_response 404 (error_body "Article not found")) /\
    (forall other, kv_get key (blobs w) = Some other -> truthy other = true ->
                   got.1 = json_response 200 other).
Proof.
  intros Hpm Hb Hs Hraw Ht Hgm Hgs Hdm Hds Hne Hw posted deleted got.
  set (skey := sanitize toLowerCase raw) in *.
  pose proof (handler_post_valid post now o raw w Hpm Hb Hs Hraw Ht Hw) as Hpost.
  cbn zeta in Hpost. fold skey posted in Hpost.
  set (saved := articleToSave o skey (default JNull (kv_get skey (blobs w))) now) in Hpost.
  assert (store_reliable posted.2) as Hw1
    by (rewrite Hpost; cbn [snd]; auto with store).
  assert (blobs posted.2 = kv_set skey (JObj saved) (blobs w)) as Hblobs
    by by rewrite Hpost.
  assert (kv_get key (blobs posted.2) = kv_get key (blobs w)) as Hsame
    by (rewrite Hblobs; by apply kv_get_set_ne).
  assert (got = (if truthy (default JNull (kv_get key (blobs w)))
                 then json_response 200 (default JNull (kv_get key (blobs w)))
                 else not_found, with_blobs (blobs posted.2) posted.2)) as Hgot.
  { subst got. rewrite (handler_get_slug get now' _ key Hgm Hgs) by auto with store.
    by rewrite Hsame. }
  assert (deleted = (json_response 200 success_body,
                     with_blobs (kv_delete key (blobs posted.2)) posted.2)) as Hdel
    by (subst deleted; by rewrite (handler_delete_slug del now' _ key Hdm Hds) by auto with store).
  exists saved. split; [by rewrite Hpost|].
  split; [rewrite Hblobs; apply kv_get_set_eq|].
  rewrite Hdel, Hgot. cbn [fst snd blobs with_blobs].
  split; [done|]. split; [done|].
  split; [rewrite kv_get_delete_ne, Hblobs by done; apply kv_get_set_eq|].
  split; [done|].
  split; [by rewrite (handler_get_slug get now' w key Hgm Hgs) by auto with store|].
  split.
  - by intros ->.
  - intros other -> Hother. simpl. by rewrite Hother.
Qed.

(** C7, amended.  For a POST whose body parses to a JSON value other than
    [null]: the answer is 400 exactly when the body's [slug] or [title]
    is falsy or missing; the 400 answer has the body
    [{"error":"Slug and title are required"}] and leaves the world, the
    store included, as it was. *)
Theorem post_bad_request_iff req now w v :
  method req = "POST" ->
  reqJson req = Some v -> v <> JNull ->
  let res := handler toLowerCase getTime req now w in
  (status res.1 = 400%Z <->
   truthy_opt (member v "slug") = false \/ truthy_opt (member v "title") = false) /\
  (status res.1 = 400%Z ->
   res = (json_response 400 (error_body "Slug and title are required"), w)).
Proof.
  intros Hm Hv Hnn res. subst res. rewrite (handler_post _ _ _ Hm).
  destruct (post_case_total req) as [Hb|Hb|v' Hb Hv' Hf|o x Hb Hx Hs Hn Ht|o s Hb Hs Hne Ht];
    rewrite Hv in Hb; [done| |..]; injection Hb as Hb; subst.
  - by destruct Hnn.
  - rewrite (handle_post_missing _ _ _ _ Hv Hnn Hf). by split.
  - rewrite (handle_post_slug_not_string _ _ _ o x) by done.
    simpl. rewrite Hx, Ht. simpl. rewrite Hs. split; [|done].
    split; [done|]. by intros [|].
  - rewrite (handle_post_valid _ _ _ _ Hv Hs Hne Ht).
    pose proof (save_article_outcome o s now w) as Hout.
    assert (truthy_opt (member (JObj o) "slug") = false \/
            truthy_opt (member (JObj o) "title") = false -> False) as Hno.
    { simpl. rewrite Hs, Ht. simpl. rewrite Hne. by intros [|]. }
    destruct (save_article toLowerCase o s now w) as [[r|e] w']; cbn [fst snd] in *.
    + destruct Hout as ([Hst|Hst] & _); rewrite Hst; by split; [split|].
    + by split; [split|].
Qed.

(** *** Exceptions *)

Lemma tracks_faults_ret {A} (a : A) : tracks_faults (ret a).
Proof.
  intros w. simpl. split; [done|]. split; [done|]. intros (i & Hi & _). lia.
Qed.

Lemma tracks_faults_throw {A} e : tracks_faults (@throw A e).
Proof.
  intros w. simpl. split; [done|]. split; [lia|]. by exists e.
Qed.

Lemma tracks_faults_store_call {A} (f : list (string * json) -> A * list (string * json)) :
  tracks_faults (store_call f).
Proof.
  intros w. unfold store_call. destruct (fault w (ops w)) eqn:E.
  - simpl. split; [done|]. split; [lia|]. by exists StoreError.
  - destruct (f (blobs w)) as [a b]. simpl. split; [done|]. split; [lia|].
    intros (i & Hi & Hfi). simpl in Hi.
    assert (i = ops w) as -> by lia. congruence.
Qed.

Lemma tracks_faults_bind {A B} (m : M A) (k : A -> M B) :
  tracks_faults m -> (forall a, tracks_faults (k a)) -> tracks_faults (bind m k).
Proof.
  intros Hm Hk w. unfold bind. specialize (Hm w).
  destruct (m w) as [[a|e] w1]; cbn [fst snd] in *; [|by destruct Hm as (? & ? & ?); eauto].
  destruct Hm as (Hf1 & Ho1 & Ht1). specialize (Hk a w1).
  destruct (k a w1) as [r w2]; cbn [fst snd] in *.
  destruct Hk as (Hf2 & Ho2 & Ht2).
  split; [congruence|]. split; [lia|].
  intros (i & Hi & Hfi). apply Ht2. exists i. split; [|congruence].
  destruct (decide (i < ops w1)) as [Hlt|]; [|lia].
  destruct Ht1 as [e He]; [|done]. exists i. split; [lia|done].
Qed.

Create HintDb faults.
#[local] Hint Resolve @tracks_faults_ret @tracks_faults_throw
  @tracks_faults_store_call @tracks_faults_bind : faults.

Lemma tracks_faults_collect keys articles : tracks_faults (collect keys articles).
Proof.
  revert articles. induction keys as [|key keys IH]; intros articles; simpl;
    unfold store_get; auto with faults.
Qed.

Lemma tracks_faults_handler_try req now :
  tracks_faults (handler_try toLowerCase getTime req now).
Proof.
  pose proof tracks_faults_collect.
  unfold handler_try, handle_get, handle_post, handle_delete, get_article,
    list_articles, save_article, req_json, store_get, store_setJSON,
    store_delete, store_list.
  repeat (match goal with
          | |- tracks_faults (if ?b then _ else _) => destruct b
          | |- tracks_faults (match ?x with _ => _ end) => destruct x
          | |- tracks_faults (bind _ _) => apply tracks_faults_bind
          | |- forall _, _ => intro
          end); auto with faults.
Qed.

(** C8.  A method other than GET, POST and DELETE is answered 405 with
    the body [{"error":"Method not allowed"}], the world untouched.  When
    [req.json()] throws, when a store call made for the request throws,
    and whenever anything is thrown inside the handler, the answer is
    500 with the one body [{"error":"Internal server error"}], which
    says nothing of the cause. *)
Theorem errors_by_class req now w :
  let res := handler toLowerCase getTime req now w in
  (method req <> "GET" -> method req <> "POST" -> method req <> "DELETE" ->
   res = (json_response 405 (error_body "Method not allowed"), w)) /\
  (method req = "POST" -> reqJson req = None ->
   res.1 = json_response 500 (error_body "Internal server error")) /\
  (store_threw w res.2 ->
   res.1 = json_response 500 (error_body "Internal server error")) /\
  (forall e, (handler_try toLowerCase getTime req now w).1 = Throw e ->
             res.1 = json_response 500 (error_body "Internal server error")).
Proof.
  intros res. subst res. split; [|split; [|split]].
  - intros Hg Hp Hd. unfold handler, handler_try.
    apply String.eqb_neq in Hg, Hp, Hd. by rewrite Hg, Hp, Hd.
  - intros Hm Hb. rewrite (handler_post _ _ _ Hm).
    by rewrite handle_post_unparsed.
  - destruct (tracks_faults_handler_try req now w) as (_ & _ & Ht).
    unfold handler. destruct (handler_try _ _ _ _ _) as [[r|e] w']; [|done].
    cbn [fst snd] in *. intros Hthrew. by destruct (Ht Hthrew).
  - intros e. unfold handler.
    destruct (handler_try _ _ _ _ _) as [[r|e'] w']; [done|done].
Qed.

(** *** What a request does to the store *)

Lemma steps_store_ret {A} (a : A) : steps_store (ret a).
Proof. intros w. constructor. Qed.

Lemma steps_store_throw {A} e : steps_store (@throw A e).
Proof. intros w. constructor. Qed.

Lemma steps_store_bind {A B} (m : M A) (k : A -> M B) :
  steps_store m -> (forall a, steps_store (k a)) -> steps_store (bind m k).
Proof.
  intros Hm Hk w. unfold bind. specialize (Hm w).
  destruct (m w) as [[a|e] w1]; cbn [fst snd] in *; [|done].
  specialize (Hk a w1). destruct (k a w1) as [r w2]; cbn [fst snd] in *.
  by apply StepThen with (blobs w1).
Qed.

Lemma steps_store_get key : steps_store (store_get key).
Proof.
  intros w. unfold store_get, store_call.
  destruct (fault w (ops w)); constructor.
Qed.

Lemma steps_store_list : steps_store store_list.
Proof.
  intros w. unfold store_list, store_call.
  destruct (fault w (ops w)); constructor.
Qed.

Lemma steps_store_setJSON key v : steps_store (store_setJSON key v).
Proof.
  intros w. unfold store_setJSON, store_call.
  destruct (fault w (ops w)); constructor.
Qed.

Lemma steps_store_delete key : steps_store (store_delete key).
Proof.
  intros w. unfold store_delete, store_call.
  destruct (fault w (ops w)); constructor.
Qed.

Create HintDb steps.
#[local] Hint Resolve @steps_store_ret @steps_store_throw @steps_store_bind
  steps_store_get steps_store_list steps_store_setJSON steps_store_delete
  : steps.

Lemma steps_store_collect keys articles : steps_store (collect keys articles).
Proof.
  revert articles. induction keys as [|key keys IH]; intros articles; simpl;
    auto with steps.
Qed.

Lemma steps_store_handler_try req now :
  steps_store (handler_try toLowerCase getTime req now).
Proof.
  pose proof steps_store_collect.
  unfold handler_try, handle_get, handle_post, handle_delete, get_article,
    list_articles, save_article, req_json.
  repeat (match goal with
          | |- steps_store (if ?b then _ else _) => destruct b
          | |- steps_store (match ?x with _ => _ end) => destruct x
          | |- steps_store (bind _ _) => apply steps_store_bind
          | |- forall _, _ => intro
          end); auto with steps.
Qed.

(** Serving a request keeps the keys of the store distinct. *)
Lemma handler_keeps_keys_distinct req now w :
  NoDup (map fst (blobs w)) ->
  NoDup (map fst (blobs (handler toLowerCase getTime req now w).2)).
Proof.
  apply store_step_NoDup. unfold handler.
  pose proof (steps_store_handler_try req now w) as Hstep.
  by destruct (handler_try _ _ _ _ _) as [[r|e] w'].
Qed.

(** *** Listing *)

(** What line 49 lets through: the objects whose [status] is the string
    "published". *)
Lemma is_published_spec a :
  is_published a = true <->
  exists o, a = JObj o /\ o !! "status" = Some (JStr "published").
Proof.
  unfold is_published. split.
  - destruct a as [| | | | |o]; simpl; rewrite ?andb_false_r; try done.
    destruct (o !! "status") as [[| | |s| |]|] eqn:Hs; try done.
    intros ->%String.eqb_eq. by exists o.
  - intros (o & -> & Hs). simpl. by rewrite Hs.
Qed.

Lemma by_date_asym a b :
  (0 < by_date getTime a b)%Z -> (by_date getTime b a <= 0)%Z.
Proof.
  unfold by_date.
  destruct (getTime (member b "publishedAt")), (getTime (member a "publishedAt")); lia.
Qed.

Lemma by_date_unparseable a b :
  date_of getTime a = None ->
  by_date getTime a b = 0%Z /\ by_date getTime b a = 0%Z.
Proof.
  unfold date_of, by_date. intros ->.
  by destruct (getTime (member b "publishedAt")).
Qed.

Lemma by_date_newest_first a b :
  is_Some (date_of getTime a) -> is_Some (date_of getTime b) ->
  not_after (by_date getTime) a b -> newest_first getTime a b.
Proof.
  unfold not_after, newest_first, by_date, date_of.
  intros [ta ->] [tb ->]. lia.
Qed.

Lemma newest_first_trans : Relations_1.Transitive (newest_first getTime).
Proof.
  intros a b c. unfold newest_first.
  destruct (date_of getTime a), (date_of getTime b), (date_of getTime c);
    try done; lia.
Qed.

Lemma list_articles_run w :
  store_reliable w ->
  NoDup (map fst (blobs w)) ->
  list_articles getTime w =
  (Ok (json_response 200
         (JArr (array_sort (by_date getTime) (published (blobs w))))),
   after_reads (length (blobs w)) (with_blobs (blobs w) w)).
Proof.
  intros Hw Hnd. unfold list_articles, store_list.
  erewrite bind_ok by (apply store_call_ok; auto with store).
  cbn [fst snd]. erewrite bind_ok by (apply collect_reliable; auto with store).
  cbn [blobs with_blobs app]. rewrite kv_get_keys by done.
  by rewrite length_map.
Qed.

(** C3, amended.  A GET without a slug segment, on a store that answers,
    returns 200 with the stored articles whose status is "published", all
    of them and no other (a rearrangement of them); when the
    [publishedAt] of each of them parses, they come newest first; an
    entry whose [publishedAt] does not parse compares equal to every
    other entry, there is no fallback to the epoch; on an empty store the
    answer is 200 with the empty array. *)
Theorem list_published req now w :
  method req = "GET" ->
  path_slug (pathname req) = None ->
  store_reliable w ->
  NoDup (map fst (blobs w)) ->
  let res := handler toLowerCase getTime req now w in
  blobs res.2 = blobs w /\
  exists articles,
    res.1 = json_response 200 (JArr articles) /\
    Permutation articles (published (blobs w)) /\
    (Forall (fun a => is_Some (date_of getTime a)) (published (blobs w)) ->
     StronglySorted (newest_first getTime) articles) /\
    (forall a b, date_of getTime a = None ->
                 by_date getTime a b = 0%Z /\ by_date getTime b a = 0%Z) /\
    (blobs w = [] -> articles = []).
Proof.
  intros Hm Hslug Hw Hnd res. subst res.
  unfold handler, handler_try. rewrite Hm, Hslug.
  cbn [String.eqb Ascii.eqb Bool.eqb handle_get].
  rewrite list_articles_run by done. cbn [fst snd].
  split; [by rewrite after_reads_blobs|].
  eexists. split; [reflexivity|].
  split; [symmetry; apply array_sort_perm|]. split; [|split].
  - intros Hall. apply Sorted_StronglySorted; [apply newest_first_trans|].
    eapply (Sorted_weaken _ _ (fun a => is_Some (date_of getTime a))).
    + intros a b Ha Hb. by apply by_date_newest_first.
    + eapply Permutation_Forall; [apply array_sort_perm|done].
    + apply array_sort_Sorted, by_date_asym.
  - apply by_date_unparseable.
  - by intros ->.
Qed.

End HandlerProperties.

(** ** The theorems at concrete requests *)

Lemma quiet_world_reliable b : store_reliable (quiet_world b).
Proof. by intros i _. Qed.

Lemma post_create_or_update_witness :
  let o : gmap string json := {[ "slug" := JStr "Hello World!"; "title" := JStr "Hi" ]} in
  let res := run (post_request (JObj o)) noon (quiet_world []) in
  exists saved,
    body res.1 = JObj saved /\
    kv_get (sanitize ascii_lower "Hello World!") (blobs res.2) = Some (JObj saved) /\
    saved !! "updatedAt" = Some (JStr noon) /\
    (kv_get (sanitize ascii_lower "Hello World!") [] = None ->
     status res.1 = 201%Z /\ saved !! "createdAt" = Some (JStr noon)) /\
    (forall existing,
        kv_get (sanitize ascii_lower "Hello World!") [] = Some existing ->
        truthy existing = true ->
        status res.1 = 200%Z /\
        (forall c, member existing "createdAt" = Some c -> truthy c = true ->
                   saved !! "createdAt" = Some c) /\
        (truthy_opt (member existing "createdAt") = false ->
         saved !! "createdAt" = Some (JStr noon))).
Proof.
  intros o res.
  apply (post_create_or_update ascii_lower getTime_date_only
           (post_request (JObj o)) noon (quiet_world []) o "Hello World!");
    try reflexivity.
  apply quiet_world_reliable.
Defined.

(** C1 as stated fails: a body whose [slug] is the number 5 has a truthy
    slug and a truthy title, yet the POST is answered 500, neither 201 nor
    200; and over a stored record that has no [createdAt] the saved
    [createdAt] is the current time, not the (absent) [createdAt] of the
    record. *)
Lemma post_truthy_slug_counterexample :
  (let o : gmap string json := {[ "slug" := JNum 5; "title" := JStr "x" ]} in
   let res := run (post_request (JObj o)) noon (quiet_world []) in
   truthy_opt (o !! "slug") = true /\ truthy_opt (o !! "title") = true /\
   res.1 = json_response 500 (error_body "Internal server error") /\
   blobs res.2 = []) /\
  (let o : gmap string json := {[ "slug" := JStr "a"; "title" := JStr "x" ]} in
   let existing := JObj {[ "slug" := JStr "a"; "title" := JStr "old" ]} in
   let res := run (post_request (JObj o)) noon (quiet_world [("a", existing)]) in
   status res.1 = 200%Z /\
   member existing "createdAt" = None /\
   member (body res.1) "createdAt" = Some (JStr noon)).
Proof. split; vm_compute; repeat split; reflexivity. Qed.

Lemma post_replaces_record_witness :
  let o : gmap string json := {[ "slug" := JStr "a"; "title" := JStr "New" ]} in
  let prior := JObj (article "a" "Old" "published" "2024-01-01") in
  let res := run (post_request (JObj o)) noon (quiet_world [("a", prior)]) in
  status res.1 = 200%Z /\
  member (body res.1) "title" = Some (JStr "New") /\
  member (body res.1) "status" = None /\
  member (body res.1) "publishedAt" = None /\
  kv_get "a" (blobs res.2) = Some (body res.1).
Proof.
  intros o prior res.
  destruct (post_replaces_record ascii_lower getTime_date_only
              (post_request (JObj o)) noon (quiet_world [("a", prior)]))
    as (o' & s & c & Ho & Hs & _ & Hget & Hbody & _ & Hkeep & _);
    [reflexivity|left; reflexivity|].
  injection Ho as <-. injection Hs as <-.
  subst res. unfold run. rewrite Hbody. cbn [member].
  split; [reflexivity|].
  rewrite !Hkeep by discriminate.
  split; [reflexivity|]. split; [reflexivity|]. split; [reflexivity|].
  exact Hget.
Defined.

Lemma get_by_slug_witness :
  let draft := JObj (article "wip" "Work in progress" "draft" "2024-01-01") in
  let w := quiet_world [("wip", draft)] in
  (run (get_request "/api/articles/wip") noon w).1 = json_response 200 draft /\
  (run (get_request "/api/articles/gone") noon w).1
  = json_response 404 (error_body "Article not found").
Proof.
  intros draft w. split.
  - apply (get_by_slug ascii_lower getTime_date_only
             (get_request "/api/articles/wip") noon w "wip");
      reflexivity.
  - apply (get_by_slug ascii_lower getTime_date_only
             (get_request "/api/articles/gone") noon w "gone");
      reflexivity.
Defined.

Lemma delete_by_slug_witness :
  let w := quiet_world [("a", JObj (article "a" "A" "draft" "2024-01-01"))] in
  run (delete_request "/api/articles") noon w
  = (json_response 400 (error_body "Slug is required"), w) /\
  (run (delete_request "/api/articles/a") noon w).1 = json_response 200 success_body /\
  blobs (run (delete_request "/api/articles/a") noon w).2 = [] /\
  (run (delete_request "/api/articles/b") noon w).1 = json_response 200 success_body /\
  blobs (run (delete_request "/api/articles/b") noon w).2 = blobs w.
Proof.
  intros w.
  destruct (delete_by_slug ascii_lower getTime_date_only
              (delete_request "/api/articles") noon w) as [Hnone _];
    [reflexivity|].
  destruct (delete_by_slug ascii_lower getTime_date_only
              (delete_request "/api/articles/a") noon w) as [_ Ha];
    [reflexivity|].
  destruct (delete_by_slug ascii_lower getTime_date_only
              (delete_request "/api/articles/b") noon w) as [_ Hb];
    [reflexivity|].
  destruct (Ha "a") as (Ha1 & Ha2 & _); [reflexivity..|].
  destruct (Hb "b") as (Hb1 & _ & _ & _ & Hb2); [reflexivity..|].
  split; [apply Hnone; reflexivity|].
  split; [exact Ha1|]. split; [exact Ha2|]. split; [exact Hb1|].
  apply Hb2. reflexivity.
Defined.

(** C7 as stated fails: the body [null] has no [slug], yet the POST is
    answered 500 and not 400. *)
Lemma post_null_body_counterexample :
  let res := run (post_request JNull) noon (quiet_world []) in
  truthy_opt (member JNull "slug") = false /\
  status res.1 = 500%Z /\
  res.1 = json_response 500 (error_body "Internal server error").
Proof. vm_compute. repeat split; reflexivity. Qed.

Lemma post_bad_request_iff_witness :
  let v := JObj {[ "title" := JStr "x" ]} in
  run (post_request v) noon (quiet_world [])
  = (json_response 400 (error_body "Slug and title are required"), quiet_world []).
Proof.
  intros v.
  destruct (post_bad_request_iff ascii_lower getTime_date_only
              (post_request v) noon (quiet_world []) v) as [Hiff Hsame];
    [reflexivity|reflexivity|discriminate|].
  apply Hsame, Hiff. left. reflexivity.
Defined.



(** C10 as stated fails: the raw slug ["a/"] differs from its sanitized
    form ["a"], yet the path [/api/articles/a/] yields the key ["a"], so a
    GET with that raw slug finds the record the POST stored and a DELETE
    with it deletes that record. *)
Lemma raw_slug_trailing_slash_counterexample :
  let o : gmap string json := {[ "slug" := JStr "a/"; "title" := JStr "T" ]} in
  let posted := run (post_request (JObj o)) noon (quiet_world []) in
  let got := run (get_request ("/api/articles/" +:+ "a/")) noon posted.2 in
  let deleted := run (delete_request ("/api/articles/" +:+ "a/")) noon posted.2 in
  sanitize ascii_lower "a/" <> "a/" /\
  status posted.1 = 201%Z /\
  map fst (blobs posted.2) = ["a"] /\
  got.1 = json_response 200 (body posted.1) /\
  deleted.1 = json_response 200 success_body /\
  blobs deleted.2 = [].
Proof. vm_compute. repeat split; (reflexivity || discriminate). Qed.

Lemma raw_slug_misses_posted_record_witness :
  let o : gmap string json := {[ "slug" := JStr "Hello"; "title" := JStr "Hi" ]} in
  let posted := run (post_request (JObj o)) noon (quiet_world []) in
  let deleted := run (delete_request "/api/articles/Hello") noon posted.2 in
  let got := run (get_request "/api/articles/Hello") noon posted.2 in
  exists saved,
    body posted.1 = JObj saved /\
    kv_get "hello" (blobs posted.2) = Some (JObj saved) /\
    deleted.1 = json_response 200 success_body /\
    kv_get "hello" (blobs deleted.2) = Some (JObj saved) /\
    got.1 = json_response 404 (error_body "Article not found").
Proof.
  intros o posted deleted got.
  destruct (raw_slug_misses_posted_record ascii_lower getTime_date_only
              (post_request (JObj o)) (get_request "/api/articles/Hello")
              (delete_request "/api/articles/Hello") noon noon
              (quiet_world []) o "Hello" "Hello")
    as (saved & Hb & Hk & Hd & _ & Hkd & _ & _ & Hg & _);
    try reflexivity; [discriminate|apply quiet_world_reliable|].
  exists saved. split; [exact Hb|]. split; [exact Hk|]. split; [exact Hd|].
  split; [exact Hkd|]. apply Hg. reflexivity.
Defined.

(** C3 as stated fails: with an epoch-0 fallback the entry without a
    parseable date would sort last, behind the entry of 2024; the handler
    returns it first. *)
Lemma list_unparseable_date_counterexample :
  let undated := JObj (article "a-undated" "A" "published" "") in
  let dated := JObj (article "b-dated" "B" "published" "2024-01-01") in
  let w := quiet_world [("a-undated", undated); ("b-dated", dated)] in
  (run (get_request "/api/articles") noon w).1
  = json_response 200 (JArr [undated; dated]) /\
  epoch0_time getTime_date_only undated = 0%Z /\
  epoch0_time getTime_date_only dated = 1704067200000%Z.
Proof. vm_compute. repeat split; reflexivity. Qed.

Lemma list_published_witness :
  let january := JObj (article "jan" "January" "published" "2024-01-01") in
  let june := JObj (article "jun" "June" "published" "2024-06-01") in
  let draft := JObj (article "wip" "Draft" "draft" "2024-09-01") in
  let w := quiet_world [("jan", january); ("wip", draft); ("jun", june)] in
  exists articles,
    (run (get_request "/api/articles") noon w).1 = json_response 200 (JArr articles) /\
    Permutation articles [january; june] /\
    StronglySorted (newest_first getTime_date_only) articles.
Proof.
  intros january june draft w.
  destruct (list_published ascii_lower getTime_date_only
              (get_request "/api/articles") noon w)
    as (_ & articles & Hres & Hperm & Hsorted & _);
    [reflexivity|reflexivity|apply quiet_world_reliable| |].
  - by apply (bool_decide_unpack (NoDup (A := string) _)).
  - exists articles. split; [exact Hres|]. split; [exact Hperm|].
    apply Hsorted. repeat constructor; by eexists.
Defined.

(** ** The scenarios of the specification, run *)

Example second_post_keeps_createdAt :
  let o : gmap string json := {[ "slug" := JStr "My Post"; "title" := JStr "T" ]} in
  let first := run (post_request (JObj o)) "2024-07-01T12:00:00.000Z" (quiet_world []) in
  let second := run (post_request (JObj o)) "2024-07-02T08:30:00.000Z" first.2 in
  status first.1 = 201%Z /\
  status second.1 = 200%Z /\
  member (body second.1) "slug" = Some (JStr "my-post") /\
  member (body second.1) "createdAt" = Some (JStr "2024-07-01T12:00:00.000Z") /\
  member (body second.1) "updatedAt" = Some (JStr "2024-07-02T08:30:00.000Z") /\
  map fst (blobs second.2) = ["my-post"].
Proof. vm_compute. repeat split; reflexivity. Qed.

Example listing_after_posts :
  let w1 := (run (post_request (JObj (article "jan" "January" "published" "2024-01-01")))
               noon (quiet_world [])).2 in
  let w2 := (run (post_request (JObj (article "wip" "Draft" "draft" "2024-09-01")))
               noon w1).2 in
  let w3 := (run (post_request (JObj (article "jun" "June" "published" "2024-06-01")))
               noon w2).2 in
  let listed := (run (get_request "/api/articles") noon w3).1 in
  status listed = 200%Z /\
  match body listed with
  | JArr items => map (fun a => member a "slug") items = [Some (JStr "jun"); Some (JStr "jan")]
  | _ => False
  end.
Proof. vm_compute. split; reflexivity. Qed.

Example listing_empty_store :
  (run (get_request "/api/articles") noon (quiet_world [])).1
  = json_response 200 (JArr []).
Proof. reflexivity. Qed.

Example put_not_allowed :
  run {| method := "PUT"; pathname := "/api/articles/a"; reqJson := None |}
      noon (quiet_world [])
  = (json_response 405 (error_body "Method not allowed"), quiet_world []).
Proof. reflexivity. Qed.

Example malformed_json_is_500 :
  (run {| method := "POST"; pathname := "/api/articles"; reqJson := None |}
       noon (quiet_world [])).1
  = json_response 500 (error_body "Internal server error").
Proof. reflexivity. Qed.

Example store_failure_is_500 :
  let w := failing_world [("a", JObj (article "a" "A" "published" "2024-01-01"))] in
  (run (get_request "/api/articles") noon w).1
  = json_response 500 (error_body "Internal server error") /\
  (run (get_request "/api/articles/a") noon w).1
  = json_response 500 (error_body "Internal server error") /\
  (run (delete_request "/api/articles/a") noon w).1
  = json_response 500 (error_body "Internal server error") /\
  blobs (run (delete_request "/api/articles/a") noon w).2 = blobs w /\
  store_threw w (run (delete_request "/api/articles/a") noon w).2.
Proof.
  repeat split; try reflexivity.
  exists 0. split; [simpl; lia|reflexivity].
Qed.

Example slug_with_slashes :
  path_slug "/api/articles/2024/07/launch" = Some "2024/07/launch" /\
  path_slug "/api/articles" = None /\
  path_slug "/api/articles/" = None.
Proof. repeat split; reflexivity. Qed.

(** ** Further properties of the sanitation *)

Lemma alnum_is_slug_char c : is_alnum c = true -> is_slug_char c = true.
Proof. destruct c as [[] [] [] [] [] [] [] []]; vm_compute; congruence. Qed.

Lemma alnum_not_hyphen c : is_hyphen c = true -> is_alnum c = false.
Proof. destruct c as [[] [] [] [] [] [] [] []]; vm_compute; congruence. Qed.

Lemma slug_char_cases c :
  is_slug_char c = true -> is_alnum c = true \/ is_hyphen c = true.
Proof. destruct c as [[] [] [] [] [] [] [] []]; vm_compute; auto. Qed.

Lemma replace_non_slug_alnums s : alnums (replace_non_slug s) = alnums s.
Proof.
  unfold alnums, replace_non_slug.
  induction s as [|c s IH]; simpl; [done|]. rewrite IH.
  destruct (is_slug_char c) eqn:E; [done|].
  replace (is_alnum hyphen) with false by reflexivity.
  destruct (is_alnum c) eqn:Ea; [|done].
  apply alnum_is_slug_char in Ea. congruence.
Qed.

Lemma collapse_hyphens_alnums s : alnums (collapse_hyphens s) = alnums s.
Proof.
  unfold alnums. induction s as [|c s IH]; [done|].
  destruct s as [|d s']; [done|]. rewrite collapse_hyphens_cons.
  destruct (is_hyphen c && is_hyphen d) eqn:E.
  - apply andb_true_iff in E as [Hc _]. rewrite IH.
    cbn [string_filter]. by rewrite (alnum_not_hyphen _ Hc).
  - change (string_filter is_alnum (String c ?t))
      with (if is_alnum c then String c (string_filter is_alnum t)
            else string_filter is_alnum t).
    by rewrite IH.
Qed.

Lemma strip_leading_alnums s : alnums (strip_leading s) = alnums s.
Proof.
  unfold alnums. destruct s as [|c s]; [done|]. simpl.
  destruct (is_hyphen c) eqn:E; [|done]. by rewrite (alnum_not_hyphen _ E).
Qed.

Lemma strip_trailing_alnums s : alnums (strip_trailing s) = alnums s.
Proof.
  unfold alnums. induction s as [|c s IH]; [done|].
  destruct s as [|d s'].
  - simpl. destruct (is_hyphen c) eqn:E; [|done].
    by rewrite (alnum_not_hyphen _ E).
  - rewrite strip_trailing_cons.
    change (string_filter is_alnum (String c ?t))
      with (if is_alnum c then String c (string_filter is_alnum t)
            else string_filter is_alnum t).
    by rewrite IH.
Qed.

Lemma sanitize_alnums toLowerCase s :
  alnums (sanitize toLowerCase s) = alnums (toLowerCase s).
Proof.
  unfold sanitize, strip_edges.
  by rewrite strip_trailing_alnums, strip_leading_alnums,
    collapse_hyphens_alnums, replace_non_slug_alnums.
Qed.

Lemma alnums_empty s :
  alnums s = EmptyString <-> string_forall (fun c => negb (is_alnum c)) s = true.
Proof.
  unfold alnums. induction s as [|c s IH]; simpl; [done|].
  destruct (is_alnum c); simpl; [split; discriminate|exact IH].
Qed.

Lemma slug_shaped_no_alnums t :
  slug_shaped t -> alnums t = EmptyString -> t = EmptyString.
Proof.
  intros (Hc & _ & Hl & _) Ha. destruct t as [|c t]; [done|].
  simpl in Hc, Hl. apply andb_true_iff in Hc as [Hc _].
  unfold alnums in Ha. simpl in Ha.
  destruct (slug_char_cases c Hc) as [E|E].
  - by rewrite E in Ha.
  - by rewrite E in Hl.
Qed.

Lemma string_filter_length p s :
  String.length (string_filter p s) <= String.length s.
Proof.
  induction s as [|c s IH]; simpl; [done|]. destruct (p c); simpl; lia.
Qed.

Lemma string_map_length f s : String.length (string_map f s) = String.length s.
Proof. induction s as [|c s IH]; simpl; [done|]. by rewrite IH. Qed.

Lemma collapse_hyphens_length s :
  String.length (collapse_hyphens s) <= String.length s.
Proof.
  induction s as [|c s IH]; [done|]. destruct s as [|d s']; [done|].
  rewrite collapse_hyphens_cons.
  remember (collapse_hyphens (String d s')) as t.
  destruct (is_hyphen c && is_hyphen d); simpl in *; lia.
Qed.

Lemma strip_leading_length s :
  String.length (strip_leading s) <= String.length s.
Proof. destruct s as [|c s]; simpl; [done|]. destruct (is_hyphen c); simpl; lia. Qed.

Lemma strip_trailing_length s :
  String.length (strip_trailing s) <= String.length s.
Proof.
  induction s as [|c s IH]; [done|]. destruct s as [|d s'].
  - simpl. destruct (is_hyphen c); simpl; lia.
  - rewrite strip_trailing_cons.
    remember (strip_trailing (String d s')) as t. simpl in *. lia.
Qed.

(** X1.  The sanitized slug keeps the lower-case letters and the digits of
    the lower-cased slug, all of them and in their order; whatever stood
    between them is at most one hyphen, none at either end; and it is no
    longer than the lower-cased slug. *)
Theorem sanitize_keeps_letters_and_digits toLowerCase s :
  alnums (sanitize toLowerCase s) = alnums (toLowerCase s) /\
  slug_shaped (sanitize toLowerCase s) /\
  String.length (sanitize toLowerCase s) <= String.length (toLowerCase s).
Proof.
  split; [apply sanitize_alnums|]. split; [apply sanitize_shaped|].
  unfold sanitize, strip_edges, replace_non_slug.
  pose proof (strip_trailing_length
                (strip_leading (collapse_hyphens
                   (string_map (fun c => if is_slug_char c then c else hyphen)
                      (toLowerCase s))))) as H1.
  pose proof (strip_leading_length
                (collapse_hyphens
                   (string_map (fun c => if is_slug_char c then c else hyphen)
                      (toLowerCase s)))) as H2.
  pose proof (collapse_hyphens_length
                (string_map (fun c => if is_slug_char c then c else hyphen)
                   (toLowerCase s))) as H3.
  rewrite string_map_length in H3. lia.
Qed.

(** X2.  The sanitized slug is empty exactly when the lower-cased slug has
    no letter of [a-z] and no digit. *)
Theorem sanitize_empty_iff toLowerCase s :
  sanitize toLowerCase s = EmptyString <->
  string_forall (fun c => negb (is_alnum c)) (toLowerCase s) = true.
Proof.
  rewrite <- alnums_empty, <- sanitize_alnums. split.
  - by intros ->.
  - apply slug_shaped_no_alnums, sanitize_shaped.
Qed.

Section MoreSanitize.

Variable toLowerCase : string -> string.

Hypothesis toLowerCase_ascii :
  forall s, string_forall is_ascii_char s = true ->
            toLowerCase s = ascii_lower s.

(** X3.  The slugs that sanitation leaves as they are are exactly the
    normalized ones: made of [a-z0-9-], without two hyphens in a row and
    without a hyphen at either end. *)
Theorem sanitize_fixed_iff s :
  sanitize toLowerCase s = s <-> slug_shaped s.
Proof.
  split.
  - intros <-. apply sanitize_shaped.
  - by apply sanitize_fixed.
Qed.

End MoreSanitize.

Lemma sanitize_fixed_iff_witness :
  sanitize ascii_lower "hello-world-2" = "hello-world-2" /\
  slug_shaped "hello-world-2" /\
  ~ slug_shaped "Hello".
Proof.
  assert (slug_shaped "hello-world-2") as Hs by (repeat split; reflexivity).
  split; [|split; [exact Hs|]].
  - apply (sanitize_fixed_iff ascii_lower); [reflexivity|exact Hs].
  - intros H. apply (sanitize_fixed_iff ascii_lower) in H; [|reflexivity].
    discriminate H.
Defined.

(** ** Further properties of the path *)

Lemma split_not_nil sep s : split sep s <> [].
Proof.
  destruct s as [|c s]; simpl; [done|].
  destruct (Ascii.eqb c sep); [done|]. by destruct (split sep s).
Qed.

Lemma split_cons_sep sep s : split sep (String sep s) = EmptyString :: split sep s.
Proof. simpl. by rewrite Ascii.eqb_refl. Qed.

Lemma split_cons_other sep c s :
  Ascii.eqb c sep = false ->
  split sep (String c s)
  = String c (hd EmptyString (split sep s)) :: tl (split sep s).
Proof.
  intros E. simpl. rewrite E.
  pose proof (split_not_nil sep s). by destruct (split sep s).
Qed.

Lemma split_no_char sep p s :
  no_char sep p = true ->
  split sep (p +:+ String sep s) = p :: split sep s.
Proof.
  unfold no_char. induction p as [|c p IH]; simpl.
  - intros _. by rewrite Ascii.eqb_refl.
  - rewrite andb_true_iff, negb_true_iff. intros [E Hp].
    rewrite E. change (p +:+ String sep s)%string with (p +:+ String sep s).
    by rewrite IH.
Qed.

Lemma split_single sep p : no_char sep p = true -> split sep p = [p].
Proof.
  unfold no_char. induction p as [|c p IH]; simpl; [done|].
  rewrite andb_true_iff, negb_true_iff. intros [E Hp]. by rewrite E, IH.
Qed.

Lemma split_parts_no_char sep s :
  Forall (fun p => no_char sep p = true) (split sep s).
Proof.
  induction s as [|c s IH]; simpl; [by repeat constructor|].
  destruct (Ascii.eqb c sep) eqn:E; [by constructor|].
  pose proof (split_not_nil sep s). destruct (split sep s) as [|p ps]; [done|].
  apply Forall_cons in IH as [Hp Hps]. constructor; [|done].
  unfold no_char in *. simpl. by rewrite E, Hp.
Qed.

Lemma join_split sep s : join (String sep EmptyString) (split sep s) = s.
Proof.
  induction s as [|c s IH]; [done|]. simpl split.
  pose proof (split_not_nil sep s) as Hn.
  destruct (Ascii.eqb c sep) eqn:E.
  - apply Ascii.eqb_eq in E as ->.
    destruct (split sep s) as [|p ps]; [done|]. simpl in *. by rewrite IH.
  - destruct (split sep s) as [|p ps]; [done|].
    destruct ps as [|q ps]; simpl in *; by rewrite <- IH.
Qed.

Lemma split_join sep parts :
  parts <> [] ->
  Forall (fun p => no_char sep p = true) parts ->
  split sep (join (String sep EmptyString) parts) = parts.
Proof.
  induction parts as [|p parts IH]; [done|]. intros _ Hall.
  apply Forall_cons in Hall as [Hp Hall].
  destruct parts as [|q parts]; [by apply split_single|].
  change (join (String sep EmptyString) (p :: q :: parts))
    with (p +:+ String sep (join (String sep EmptyString) (q :: parts))).
  rewrite split_no_char by done. by rewrite IH.
Qed.

Lemma filter_all_true {A} (p : A -> bool) l :
  Forall (fun x => p x = true) l -> List.filter p l = l.
Proof.
  induction 1 as [|x l Hx Hl IH]; simpl; [done|]. by rewrite Hx, IH.
Qed.

Lemma path_slug_of_remainder k :
  no_empty_segment k -> path_slug ("/api/articles/" +:+ k) = Some k.
Proof.
  intros Hk. unfold path_slug, pathParts.
  change ("/api/articles/" +:+ k)
    with (String "/" ("api" +:+ String "/" ("articles" +:+ String "/" k))).
  rewrite split_cons_sep, !split_no_char by reflexivity.
  cbn [List.filter nonempty String.eqb Ascii.eqb Bool.eqb negb].
  rewrite filter_all_true by exact Hk.
  pose proof (split_not_nil "/" k) as Hn.
  destruct (split "/" k) as [|p ps] eqn:E; [done|].
  cbn [length Nat.ltb Nat.leb drop]. by rewrite <- E, join_split.
Qed.

Lemma path_slug_segments pathname key :
  path_slug pathname = Some key -> no_empty_segment key.
Proof.
  unfold path_slug, no_empty_segment.
  assert (Forall (fun p => nonempty p = true /\ no_char "/" p = true)
            (pathParts pathname)) as Hall.
  { apply List.Forall_forall. intros p Hp. apply filter_In in Hp as [Hin Hp].
    split; [done|].
    pose proof (split_parts_no_char "/" pathname) as Hs.
    by apply (proj1 (List.Forall_forall _ _) Hs). }
  destruct (pathParts pathname) as [|a [|b [|c parts]]]; try done.
  cbn [length Nat.ltb Nat.leb drop]. intros Hk.
  assert (key = join "/" (c :: parts)) as -> by congruence. clear Hk.
  do 2 apply Forall_cons in Hall as [_ Hall].
  rewrite split_join; [|done|].
  - eapply Forall_impl; [exact Hall|]. by intros p [Hp _].
  - eapply Forall_impl; [exact Hall|]. by intros p [_ Hp].
Qed.

(** X4.  The slug is the path after [/api/articles/] with its empty
    segments dropped: a remainder without empty segment is its own slug,
    and a slug that a path yields has no empty segment (so it is not
    empty) and yields itself when requested again. *)
Theorem path_slug_is_normalized_remainder :
  (forall k, no_empty_segment k ->
             path_slug ("/api/articles/" +:+ k) = Some k) /\
  (forall pathname key,
      path_slug pathname = Some key ->
      nonempty key = true /\ no_empty_segment key /\
      path_slug ("/api/articles/" +:+ key) = Some key).
Proof.
  split; [apply path_slug_of_remainder|].
  intros pathname key H. split; [by apply (path_slug_nonempty pathname)|].
  pose proof (path_slug_segments _ _ H) as Hseg.
  split; [done|]. by apply path_slug_of_remainder.
Qed.

Lemma path_slug_is_normalized_remainder_witness :
  path_slug "/api/articles/2024/launch" = Some "2024/launch" /\
  path_slug "/api//articles/a//b/" = Some "a/b" /\
  path_slug ("/api/articles/" +:+ "a/b") = Some "a/b".
Proof.
  destruct path_slug_is_normalized_remainder as [Hrem Hslug].
  split; [|split].
  - apply (Hrem "2024/launch"). by repeat constructor.
  - reflexivity.
  - apply (Hslug "/api//articles/a//b/" "a/b"). reflexivity.
Defined.

(** ** Further properties of the handler *)

Section MoreHandler.

Variable toLowerCase : string -> string.
Variable getTime : option json -> option Z.

Hypothesis toLowerCase_ascii :
  forall s, string_forall is_ascii_char s = true ->
            toLowerCase s = ascii_lower s.

Lemma method_cases req :
  method req = "GET" \/ method req = "POST" \/ method req = "DELETE" \/
  (method req <> "GET" /\ method req <> "POST" /\ method req <> "DELETE").
Proof.
  destruct (decide (method req = "GET")); [by left|].
  destruct (decide (method req = "POST")); [by right; left|].
  destruct (decide (method req = "DELETE")); [by right; right; left|].
  by right; right; right.
Qed.

Lemma handler_try_get req now :
  method req = "GET" ->
  handler_try toLowerCase getTime req now
  = handle_get getTime (path_slug (pathname req)).
Proof. intros Hm. unfold handler_try. by rewrite Hm. Qed.

Lemma handler_try_post req now :
  method req = "POST" ->
  handler_try toLowerCase getTime req now = handle_post toLowerCase req now.
Proof. intros Hm. unfold handler_try. by rewrite Hm. Qed.

Lemma handler_try_delete req now :
  method req = "DELETE" ->
  handler_try toLowerCase getTime req now
  = handle_delete (path_slug (pathname req)).
Proof. intros Hm. unfold handler_try. by rewrite Hm. Qed.

Lemma handler_try_other req now :
  method req <> "GET" -> method req <> "POST" -> method req <> "DELETE" ->
  handler_try toLowerCase getTime req now = ret method_not_allowed.
Proof.
  intros Hg Hp Hd. unfold handler_try.
  apply String.eqb_neq in Hg, Hp, Hd. by rewrite Hg, Hp, Hd.
Qed.

(** *** Reading and the console *)

Lemma reads_only_ret {A} (a : A) : reads_only (ret a).
Proof. by intros w. Qed.

Lemma reads_only_throw {A} e : reads_only (@throw A e).
Proof. by intros w. Qed.

Lemma reads_only_bind {A B} (m : M A) (k : A -> M B) :
  reads_only m -> (forall a, reads_only (k a)) -> reads_only (bind m k).
Proof.
  intros Hm Hk w. unfold bind. specialize (Hm w).
  destruct (m w) as [[a|e] w1]; cbn [fst snd] in *; [|done].
  by rewrite Hk.
Qed.

Lemma reads_only_store_get key : reads_only (store_get key).
Proof. intros w. unfold store_get, store_call. by destruct (fault w (ops w)). Qed.

Lemma reads_only_store_list : reads_only store_list.
Proof. intros w. unfold store_list, store_call. by destruct (fault w (ops w)). Qed.

Lemma reads_only_collect keys articles : reads_only (collect keys articles).
Proof.
  revert articles. induction keys as [|key keys IH]; intros articles; simpl.
  - apply reads_only_ret.
  - apply reads_only_bind; [apply reads_only_store_get|]. intros a. apply IH.
Qed.

Lemma reads_only_handle_get slug : reads_only (handle_get getTime slug).
Proof.
  assert (reads_only (list_articles getTime)) as Hlist.
  { unfold list_articles. apply reads_only_bind; [apply reads_only_store_list|].
    intros keys. apply reads_only_bind; [apply reads_only_collect|].
    intros articles. apply reads_only_ret. }
  unfold handle_get. destruct slug as [key|]; [|done].
  destruct (nonempty key); [|done].
  unfold get_article. apply reads_only_bind; [apply reads_only_store_get|].
  intros a. destruct (negb (truthy a)); apply reads_only_ret.
Qed.

Lemma keeps_console_ret {A} (a : A) : keeps_console (ret a).
Proof. by intros w. Qed.

Lemma keeps_console_throw {A} e : keeps_console (@throw A e).
Proof. by intros w. Qed.

Lemma keeps_console_bind {A B} (m : M A) (k : A -> M B) :
  keeps_console m -> (forall a, keeps_console (k a)) -> keeps_console (bind m k).
Proof.
  intros Hm Hk w. unfold bind. specialize (Hm w).
  destruct (m w) as [[a|e] w1]; cbn [fst snd] in *; [|done].
  by rewrite Hk.
Qed.

Lemma keeps_console_store_call {A}
    (f : list (string * json) -> A * list (string * json)) :
  keeps_console (store_call f).
Proof.
  intros w. unfold store_call. destruct (fault w (ops w)); [done|].
  by destruct (f (blobs w)).
Qed.

Lemma keeps_console_collect keys articles : keeps_console (collect keys articles).
Proof.
  revert articles. induction keys as [|key keys IH]; intros articles; simpl.
  - apply keeps_console_ret.
  - apply keeps_console_bind; [apply keeps_console_store_call|].
    intros a. apply IH.
Qed.

Lemma keeps_console_handler_try req now :
  keeps_console (handler_try toLowerCase getTime req now).
Proof.
  pose proof keeps_console_collect.
  unfold handler_try, handle_get, handle_post, handle_delete, get_article,
    list_articles, save_article, req_json, store_get, store_setJSON,
    store_delete, store_list.
  repeat (match goal with
          | |- keeps_console (if ?b then _ else _) => destruct b
          | |- keeps_console (match ?x with _ => _ end) => destruct x
          | |- keeps_console (bind _ _) => apply keeps_console_bind
          | |- keeps_console (store_call _) => apply keeps_console_store_call
          | |- keeps_console (ret _) => apply keeps_console_ret
          | |- keeps_console (throw _) => apply keeps_console_throw
          | |- forall _, _ => intro
          end); auto.
Qed.

(** *** The statuses *)

Lemma answers_ret (S : Z -> Prop) st b :
  S st -> answers S (ret (json_response st b)).
Proof. intros Hs w r [= <-]. by split. Qed.

Lemma answers_throw (S : Z -> Prop) e : answers S (throw e).
Proof. by intros w r. Qed.

Lemma answers_bind {A} (S : Z -> Prop) (m : M A) (k : A -> M response) :
  (forall a, answers S (k a)) -> answers S (bind m k).
Proof.
  intros Hk w r. unfold bind. destruct (m w) as [[a|e] w1]; [|done].
  apply Hk.
Qed.

Lemma answers_handle_get slug :
  answers (fun st => st = 200 \/ st = 404)%Z (handle_get getTime slug).
Proof.
  assert (answers (fun st => st = 200 \/ st = 404)%Z (list_articles getTime))
    as Hlist.
  { unfold list_articles. apply answers_bind. intros keys.
    apply answers_bind. intros articles. apply answers_ret. by left. }
  unfold handle_get. destruct slug as [key|]; [|done].
  destruct (nonempty key); [|done].
  unfold get_article. apply answers_bind. intros a.
  destruct (negb (truthy a)); apply answers_ret; auto.
Qed.

Lemma answers_handle_post req now :
  answers (fun st => st = 200 \/ st = 201 \/ st = 400)%Z
    (handle_post toLowerCase req now).
Proof.
  unfold handle_post. apply answers_bind. intros v.
  destruct v as [| | | | |o];
    try (apply answers_ret; auto); [apply answers_throw|].
  destruct (negb (truthy_opt (o !! "slug")) || negb (truthy_opt (o !! "title")));
    [apply answers_ret; auto|].
  destruct (o !! "slug") as [[| | |s| |]|]; try apply answers_throw.
  unfold save_article. apply answers_bind. intros existing.
  apply answers_bind. intros _.
  destruct (truthy existing); apply answers_ret; auto.
Qed.

Lemma answers_handle_delete slug :
  answers (fun st => st = 200 \/ st = 400)%Z (handle_delete slug).
Proof.
  unfold handle_delete. destruct slug as [key|]; [|apply answers_ret; auto].
  destruct (nonempty key); [|apply answers_ret; auto].
  apply answers_bind. intros _. apply answers_ret. auto.
Qed.

(** X5.  Every response is JSON, and the status depends on the method as
    the interface says: GET answers 200, 404 or 500; POST 200, 201, 400 or
    500; DELETE 200, 400 or 500; every other method 405. *)
Theorem status_by_method req now w :
  let r := (handler toLowerCase getTime req now w).1 in
  contentType r = "application/json" /\
  (method req = "GET" -> status r = 200 \/ status r = 404 \/ status r = 500)%Z /\
  (method req = "POST" ->
   status r = 200 \/ status r = 201 \/ status r = 400 \/ status r = 500)%Z /\
  (method req = "DELETE" -> status r = 200 \/ status r = 400 \/ status r = 500)%Z /\
  (method req <> "GET" -> method req <> "POST" -> method req <> "DELETE" ->
   status r = 405%Z).
Proof.
  intros r. subst r. unfold handler.
  destruct (method_cases req) as [Hm|[Hm|[Hm|(Hg & Hp & Hd)]]].
  - rewrite (handler_try_get _ _ Hm).
    pose proof (answers_handle_get (path_slug (pathname req)) w) as Ha.
    destruct (handle_get _ _ w) as [[r|e] w']; cbn [fst] in *.
    + destruct (Ha r eq_refl) as [[Hs|Hs] Hc]; rewrite Hm;
        repeat split; try done; lia.
    + rewrite Hm. repeat split; try done; cbn; lia.
  - rewrite (handler_try_post _ _ Hm).
    pose proof (answers_handle_post req now w) as Ha.
    destruct (handle_post _ _ _ w) as [[r|e] w']; cbn [fst] in *.
    + destruct (Ha r eq_refl) as [[Hs|[Hs|Hs]] Hc]; rewrite Hm;
        repeat split; try done; lia.
    + rewrite Hm. repeat split; try done; cbn; lia.
  - rewrite (handler_try_delete _ _ Hm).
    pose proof (answers_handle_delete (path_slug (pathname req)) w) as Ha.
    destruct (handle_delete _ w) as [[r|e] w']; cbn [fst] in *.
    + destruct (Ha r eq_refl) as [[Hs|Hs] Hc]; rewrite Hm;
        repeat split; try done; lia.
    + rewrite Hm. repeat split; try done; cbn; lia.
  - rewrite (handler_try_other _ _ Hg Hp Hd). by repeat split.
Qed.

(** *** What changes in the store *)

Lemma handler_blobs req now w :
  blobs (handler toLowerCase getTime req now w).2
  = blobs (handler_try toLowerCase getTime req now w).2.
Proof.
  unfold handler. by destruct (handler_try _ _ _ _ w) as [[r|e] w'].
Qed.

Lemma handler_blobs_cases req now w :
  let b' := blobs (handler toLowerCase getTime req now w).2 in
  b' = blobs w \/
  (exists key,
      method req = "DELETE" /\ path_slug (pathname req) = Some key /\
      b' = kv_delete key (blobs w)) \/
  (exists o s,
      method req = "POST" /\ reqJson req = Some (JObj o) /\
      o !! "slug" = Some (JStr s) /\ nonempty s = true /\
      let key := sanitize toLowerCase s in
      b' = kv_set key
             (JObj (articleToSave o key (default JNull (kv_get key (blobs w))) now))
             (blobs w)).
Proof.
  intros b'. subst b'. rewrite handler_blobs.
  destruct (method_cases req) as [Hm|[Hm|[Hm|(Hg & Hp & Hd)]]].
  - left. rewrite (handler_try_get _ _ Hm). apply reads_only_handle_get.
  - rewrite (handler_try_post _ _ Hm).
    destruct (post_case_total req)
      as [Hb|Hb|v Hb Hv Hf|o x Hb Hx Hs Hn Ht|o s Hb Hs Hne Ht].
    + left. by rewrite handle_post_unparsed.
    + left. by rewrite handle_post_null.
    + left. by rewrite (handle_post_missing _ _ _ _ v).
    + left. by rewrite (handle_post_slug_not_string _ _ _ _ o x).
    + rewrite (handle_post_valid _ _ _ _ _ Hb Hs Hne Ht).
      unfold save_article, store_get, store_setJSON, bind, store_call.
      destruct (fault w (ops w)); [by left|].
      cbn [fst snd with_blobs fault ops blobs].
      destruct (fault w (S (ops w))); [by left|].
      right; right. by exists o, s.
  - rewrite (handler_try_delete _ _ Hm). unfold handle_delete.
    destruct (path_slug (pathname req)) as [key|] eqn:Hslug; [|by left].
    rewrite (path_slug_nonempty _ _ Hslug).
    unfold store_delete, bind, store_call.
    destruct (fault w (ops w)); [by left|].
    right; left. by exists key.
  - left. by rewrite (handler_try_other _ _ Hg Hp Hd).
Qed.

(** X6.  Only POST and DELETE can change the store: whatever the method
    otherwise, whatever the path and whether or not the store answers, the
    blobs after the request are the blobs before it. *)
Theorem only_post_and_delete_write req now w :
  method req <> "POST" -> method req <> "DELETE" ->
  blobs (handler toLowerCase getTime req now w).2 = blobs w.
Proof.
  intros Hp Hd.
  destruct (handler_blobs_cases req now w)
    as [H|[(key & Hm & _)|(o & s & Hm & _)]]; done.
Qed.

(** X7.  A request changes the store under one key at most, the one it
    addresses: a key whose content differs after the request is the
    sanitized [slug] of the body of a POST, or the slug of the path of a
    DELETE. *)
Theorem only_addressed_key_changes req now w k :
  kv_get k (blobs (handler toLowerCase getTime req now w).2)
  <> kv_get k (blobs w) ->
  (method req = "POST" /\
   exists o s, reqJson req = Some (JObj o) /\ o !! "slug" = Some (JStr s) /\
               k = sanitize toLowerCase s) \/
  (method req = "DELETE" /\ path_slug (pathname req) = Some k).
Proof.
  intros Hne.
  destruct (handler_blobs_cases req now w)
    as [H|[(key & Hm & Hslug & H)|(o & s & Hm & Hb & Hs & _ & H)]];
    cbn zeta in H; rewrite H in Hne.
  - done.
  - right. destruct (decide (key = k)) as [->|Hk]; [done|].
    by rewrite kv_get_delete_ne in Hne.
  - left. split; [done|]. exists o, s. split; [done|]. split; [done|].
    destruct (decide (sanitize toLowerCase s = k)) as [<-|Hk]; [done|].
    by rewrite kv_get_set_ne in Hne.
Qed.

(** *** The records of the store *)

Lemma created_at_truthy existing now :
  nonempty now = true -> truthy (created_at existing now) = true.
Proof.
  intros Hnow. unfold created_at.
  destruct (member existing "createdAt") as [c|]; [|by destruct existing].
  destruct (truthy c) eqn:Hc; by destruct existing.
Qed.

Lemma articleToSave_ok o s existing now :
  nonempty now = true ->
  record_ok (sanitize toLowerCase s)
    (JObj (articleToSave o (sanitize toLowerCase s) existing now)).
Proof.
  intros Hnow. split; [apply sanitize_shaped|]. eexists. split; [done|].
  rewrite articleToSave_slug, articleToSave_createdAt, articleToSave_updatedAt.
  split; [done|]. split; [by apply created_at_truthy|done].
Qed.

Lemma kv_set_Forall (P : string * json -> Prop) key v l :
  Forall P l -> P (key, v) -> Forall P (kv_set key v l).
Proof.
  intros Hl Hv. induction Hl as [|[k v'] l Hk Hl IH]; simpl.
  - by repeat constructor.
  - destruct (String.eqb k key); by constructor.
Qed.

Lemma kv_delete_Forall (P : string * json -> Prop) key l :
  Forall P l -> Forall P (kv_delete key l).
Proof.
  induction 1 as [|[k v] l Hk Hl IH]; simpl; [done|].
  destruct (String.eqb k key); [done|]. by constructor.
Qed.

Lemma kv_get_Forall (P : string * json -> Prop) key v l :
  Forall P l -> kv_get key l = Some v -> P (key, v).
Proof.
  induction 1 as [|[k v'] l Hk Hl IH]; simpl; [done|].
  destruct (String.eqb k key) eqn:E; [|done].
  apply String.eqb_eq in E as ->. by intros [= <-].
Qed.

(** X8.  The shape of the stored records is an invariant of the handler:
    if every record sits under a normalized key, is an object whose [slug]
    is that key and has truthy [createdAt] and [updatedAt], then so it is
    after any request, served at a time that reads as a non-empty string,
    whether or not the store answers. *)
Theorem handler_keeps_store_ok req now w :
  nonempty now = true ->
  store_ok (blobs w) ->
  store_ok (blobs (handler toLowerCase getTime req now w).2).
Proof.
  intros Hnow Hok. unfold store_ok in *.
  destruct (handler_blobs_cases req now w)
    as [H|[(key & _ & _ & H)|(o & s & _ & _ & _ & _ & H)]];
    cbn zeta in H; rewrite H.
  - done.
  - by apply kv_delete_Forall.
  - apply kv_set_Forall; [done|]. by apply articleToSave_ok.
Qed.

(** X9.  On a store whose records have the shape the handler gives them, a
    slug that is not in normalized form addresses nothing: a GET with it
    answers 404, and a DELETE with it answers 200 and removes nothing. *)
Theorem raw_slug_addresses_nothing req now w raw :
  store_ok (blobs w) ->
  path_slug (pathname req) = Some raw ->
  sanitize toLowerCase raw <> raw ->
  fault w (ops w) = false ->
  let res := handler toLowerCase getTime req now w in
  (method req = "GET" ->
   res.1 = json_response 404 (error_body "Article not found")) /\
  (method req = "DELETE" ->
   res.1 = json_response 200 success_body /\ blobs res.2 = blobs w).
Proof.
  intros Hok Hslug Hraw Hf res. subst res.
  assert (kv_get raw (blobs w) = None) as Hnone.
  { destruct (kv_get raw (blobs w)) as [v|] eqn:Hv; [|done].
    destruct (kv_get_Forall _ _ _ _ Hok Hv) as [Hshape _].
    destruct Hraw. by apply sanitize_fixed. }
  split; intros Hm.
  - rewrite (handler_get_slug _ _ req now w raw Hm Hslug Hf). by rewrite Hnone.
  - rewrite (handler_delete_slug _ _ req now w raw Hm Hslug Hf).
    cbn [fst snd blobs with_blobs]. by rewrite kv_delete_absent.
Qed.

(** *** Errors *)

Lemma handler_try_ok_status req now w r :
  (handler_try toLowerCase getTime req now w).1 = Ok r ->
  (status r = 200 \/ status r = 201 \/ status r = 400 \/ status r = 404 \/
   status r = 405)%Z.
Proof.
  destruct (method_cases req) as [Hm|[Hm|[Hm|(Hg & Hp & Hd)]]].
  - rewrite (handler_try_get _ _ Hm). intros H.
    destruct (answers_handle_get _ _ _ H) as [[?|?] _]; auto.
  - rewrite (handler_try_post _ _ Hm). intros H.
    destruct (answers_handle_post _ _ _ _ H) as [[?|[?|?]] _]; auto.
  - rewrite (handler_try_delete _ _ Hm). intros H.
    destruct (answers_handle_delete _ _ _ H) as [[?|?] _]; auto.
  - rewrite (handler_try_other _ _ Hg Hp Hd). intros [= <-]. auto.
Qed.

(** X10.  The answer is 500 exactly when something was thrown, and then
    exactly one error is written to the console; a request answered
    otherwise writes nothing to the console. *)
Theorem internal_error_iff_logged req now w :
  let res := handler toLowerCase getTime req now w in
  (status res.1 = 500%Z <->
   exists e, (handler_try toLowerCase getTime req now w).1 = Throw e) /\
  (status res.1 = 500%Z -> exists e, console res.2 = (console w ++ [e])%list) /\
  (status res.1 <> 500%Z -> console res.2 = console w).
Proof.
  intros res. subst res. unfold handler.
  pose proof (keeps_console_handler_try req now w) as Hc.
  pose proof (handler_try_ok_status req now w) as Hs.
  destruct (handler_try _ _ _ _ w) as [[r|e] w']; cbn [fst snd] in *.
  - specialize (Hs r eq_refl). split; [|split].
    + split; [lia|by intros [e He]].
    + lia.
    + done.
  - split; [|split].
    + split; [by exists e|done].
    + intros _. exists e. simpl. by rewrite Hc.
    + done.
Qed.

(** X11.  Validation comes before storage: a request answered 400 or 405
    has made no store call and has left the whole world, store and
    console, as it was. *)
Theorem rejections_make_no_store_call req now w :
  let res := handler toLowerCase getTime req now w in
  (status res.1 = 400 \/ status res.1 = 405)%Z ->
  res.2 = w.
Proof.
  intros res. subst res. unfold handler.
  destruct (method_cases req) as [Hm|[Hm|[Hm|(Hg & Hp & Hd)]]].
  - rewrite (handler_try_get _ _ Hm).
    pose proof (answers_handle_get (path_slug (pathname req)) w) as Ha.
    destruct (handle_get _ _ w) as [[r|e] w']; cbn [fst snd] in *.
    + destruct (Ha r eq_refl) as [[Hs|Hs] _]; lia.
    + cbn. lia.
  - rewrite (handler_try_post _ _ Hm).
    destruct (post_case_total req)
      as [Hb|Hb|v Hb Hv Hf|o x Hb Hx Hs Hn Ht|o s Hb Hs Hne Ht].
    + rewrite handle_post_unparsed by done. cbn. lia.
    + rewrite handle_post_null by done. cbn. lia.
    + by rewrite (handle_post_missing _ _ _ _ v).
    + rewrite (handle_post_slug_not_string _ _ _ _ o x) by done. cbn. lia.
    + rewrite (handle_post_valid _ _ _ _ _ Hb Hs Hne Ht).
      pose proof (save_article_outcome toLowerCase o s now w) as Hout.
      destruct (save_article toLowerCase o s now w) as [[r|e] w'];
        cbn [fst snd] in *.
      * destruct Hout as (Hst & _). lia.
      * cbn. lia.
  - rewrite (handler_try_delete _ _ Hm). unfold handle_delete.
    destruct (path_slug (pathname req)) as [key|] eqn:Hslug; [|done].
    rewrite (path_slug_nonempty _ _ Hslug).
    unfold store_delete, bind, store_call.
    destruct (fault w (ops w)); cbn; lia.
  - by rewrite (handler_try_other _ _ Hg Hp Hd).
Qed.

(** *** Requests in a row *)

Lemma handler_post_reliable req now o s w :
  method req = "POST" ->
  reqJson req = Some (JObj o) ->
  o !! "slug" = Some (JStr s) -> nonempty s = true ->
  truthy_opt (o !! "title") = true ->
  store_reliable w ->
  store_reliable (handler toLowerCase getTime req now w).2.
Proof.
  intros Hm Hb Hs Hne Ht Hw.
  rewrite (handler_post_valid _ _ req now o s w Hm Hb Hs Hne Ht Hw).
  cbn zeta. cbn [snd]. by do 2 apply store_reliable_with_blobs.
Qed.

(** X12.  What a POST saved is what a GET by the sanitized slug returns:
    after a successful POST, a GET whose path slug is the sanitized slug
    answers 200 with the very record the POST returned, and changes
    nothing. *)
Theorem post_then_get post get now now' w o s :
  method post = "POST" ->
  reqJson post = Some (JObj o) ->
  o !! "slug" = Some (JStr s) -> nonempty s = true ->
  truthy_opt (o !! "title") = true ->
  method get = "GET" ->
  path_slug (pathname get) = Some (sanitize toLowerCase s) ->
  store_reliable w ->
  let posted := handler toLowerCase getTime post now w in
  let got := handler toLowerCase getTime get now' posted.2 in
  got.1 = json_response 200 (body posted.1) /\
  blobs got.2 = blobs posted.2.
Proof.
  intros Hpm Hb Hs Hne Ht Hgm Hgs Hw posted got.
  pose proof (handler_post_reliable post now o s w Hpm Hb Hs Hne Ht Hw) as Hw1.
  fold posted in Hw1. subst got.
  rewrite (handler_get_slug _ _ get now' posted.2 _ Hgm Hgs)
    by by apply store_reliable_now.
  cbn [fst snd blobs with_blobs]. split; [|done].
  subst posted.
  rewrite (handler_post_valid _ _ post now o s w Hpm Hb Hs Hne Ht Hw).
  cbn zeta. cbn [fst snd body json_response blobs with_blobs].
  by rewrite kv_get_set_eq.
Qed.

Lemma kv_set_keys_present key v l :
  is_Some (kv_get key l) -> map fst (kv_set key v l) = map fst l.
Proof.
  induction l as [|[k v'] l IH]; simpl; [by intros [? ?]|].
  destruct (String.eqb k key) eqn:E; simpl.
  - apply String.eqb_eq in E as ->. done.
  - intros H. by rewrite IH.
Qed.

(** X13.  Two POSTs whose slugs sanitize to the same key write the same
    record: the second answers 200, keeps the [createdAt] the first one
    returned, stamps its own time as [updatedAt], adds no key to the
    store, and of the other fields keeps those of its own body only. *)
Theorem second_post_updates post1 post2 now1 now2 w o1 s1 o2 s2 :
  method post1 = "POST" -> reqJson post1 = Some (JObj o1) ->
  o1 !! "slug" = Some (JStr s1) -> nonempty s1 = true ->
  truthy_opt (o1 !! "title") = true ->
  method post2 = "POST" -> reqJson post2 = Some (JObj o2) ->
  o2 !! "slug" = Some (JStr s2) -> nonempty s2 = true ->
  truthy_opt (o2 !! "title") = true ->
  sanitize toLowerCase s1 = sanitize toLowerCase s2 ->
  nonempty now1 = true ->
  store_reliable w ->
  let first := handler toLowerCase getTime post1 now1 w in
  let second := handler toLowerCase getTime post2 now2 first.2 in
  status second.1 = 200%Z /\
  member (body second.1) "createdAt" = member (body first.1) "createdAt" /\
  member (body second.1) "updatedAt" = Some (JStr now2) /\
  kv_get (sanitize toLowerCase s1) (blobs second.2) = Some (body second.1) /\
  map fst (blobs second.2) = map fst (blobs first.2) /\
  (forall k, k <> "slug" -> k <> "createdAt" -> k <> "updatedAt" ->
             member (body second.1) k = o2 !! k).
Proof.
  intros Hm1 Hb1 Hs1 Hne1 Ht1 Hm2 Hb2 Hs2 Hne2 Ht2 Hkey Hnow Hw first second.
  pose proof (handler_post_reliable post1 now1 o1 s1 w Hm1 Hb1 Hs1 Hne1 Ht1 Hw)
    as Hw1.
  fold first in Hw1. subst second.
  rewrite (handler_post_valid _ _ post2 now2 o2 s2 first.2 Hm2 Hb2 Hs2 Hne2 Ht2 Hw1).
  cbn zeta. rewrite <- Hkey.
  assert (exists saved,
            body first.1 = JObj saved /\
            saved !! "createdAt" = Some (created_at
              (default JNull (kv_get (sanitize toLowerCase s1) (blobs w))) now1) /\
            kv_get (sanitize toLowerCase s1) (blobs first.2) = Some (JObj saved))
    as (saved & Hbody & Hcreated & Hget).
  { subst first.
    rewrite (handler_post_valid _ _ post1 now1 o1 s1 w Hm1 Hb1 Hs1 Hne1 Ht1 Hw).
    cbn zeta. cbn [fst snd body json_response blobs with_blobs].
    eexists. split; [done|]. split; [apply articleToSave_createdAt|].
    apply kv_get_set_eq. }
  rewrite Hget. cbn [fst snd body status json_response blobs with_blobs default truthy member].
  rewrite Hbody. cbn [member].
  split; [done|]. rewrite Hcreated.
  split.
  { rewrite articleToSave_createdAt. f_equal.
    apply created_at_kept; [done|done|]. by apply created_at_truthy. }
  split; [apply articleToSave_updatedAt|].
  split; [apply kv_get_set_eq|].
  split; [apply kv_set_keys_present; by rewrite Hget|].
  intros k ???. unfold articleToSave. by simplify_map_eq.
Qed.

(** X14.  What a DELETE removed is gone: after a DELETE a GET with the
    same slug answers 404, and a second DELETE with that slug answers 200
    again and leaves the store as the first one left it. *)
Theorem delete_then_get_or_delete del get now now' w key :
  method del = "DELETE" -> path_slug (pathname del) = Some key ->
  method get = "GET" -> path_slug (pathname get) = Some key ->
  store_reliable w ->
  let deleted := handler toLowerCase getTime del now w in
  let got := handler toLowerCase getTime get now' deleted.2 in
  let again := handler toLowerCase getTime del now' deleted.2 in
  deleted.1 = json_response 200 success_body /\
  got.1 = json_response 404 (error_body "Article not found") /\
  again.1 = json_response 200 success_body /\
  blobs again.2 = blobs deleted.2.
Proof.
  intros Hdm Hds Hgm Hgs Hw deleted got again.
  assert (deleted = (json_response 200 success_body,
                     with_blobs (kv_delete key (blobs w)) w)) as Hdel.
  { subst deleted. apply handler_delete_slug; [done|done|]. by apply Hw. }
  assert (store_reliable deleted.2) as Hw1
    by (rewrite Hdel; by apply store_reliable_with_blobs).
  subst got again.
  rewrite (handler_get_slug _ _ get now' deleted.2 key Hgm Hgs)
    by by apply store_reliable_now.
  rewrite (handler_delete_slug _ _ del now' deleted.2 key Hdm Hds)
    by by apply store_reliable_now.
  rewrite Hdel. cbn [fst snd blobs with_blobs].
  rewrite kv_get_delete_eq. split; [done|]. split; [done|]. split; [done|].
  apply kv_delete_absent, kv_get_delete_eq.
Qed.

(** *** Store calls *)

Lemma after_reads_ops n w : ops (after_reads n w) = n + ops w.
Proof.
  revert w. induction n as [|n IH]; intros w; simpl; [done|].
  rewrite IH. simpl. lia.
Qed.

(** X15.  On a store that answers, a GET by slug and a DELETE by slug make
    one store call each, a successful POST makes two (a read and a write),
    and a listing makes one call for the keys and one more for every blob
    in the store, published or not. *)
Theorem store_calls_per_request req now w :
  store_reliable w ->
  let res := handler toLowerCase getTime req now w in
  (method req = "GET" -> is_Some (path_slug (pathname req)) ->
   ops res.2 = ops w + 1) /\
  (method req = "GET" -> path_slug (pathname req) = None ->
   ops res.2 = ops w + 1 + length (blobs w)) /\
  (method req = "DELETE" -> is_Some (path_slug (pathname req)) ->
   ops res.2 = ops w + 1) /\
  (method req = "POST" ->
   (status res.1 = 200 \/ status res.1 = 201)%Z ->
   ops res.2 = ops w + 2).
Proof.
  intros Hw res. subst res. split; [|split; [|split]].
  - intros Hm [key Hslug].
    rewrite (handler_get_slug _ _ req now w key Hm Hslug) by by apply Hw.
    simpl. lia.
  - intros Hm Hslug. unfold handler.
    rewrite (handler_try_get _ _ Hm), Hslug. cbn [handle_get].
    unfold list_articles, store_list.
    erewrite bind_ok by (apply store_call_ok; by apply Hw).
    cbn [fst snd].
    erewrite bind_ok
      by (apply collect_reliable; by apply store_reliable_with_blobs).
    cbn [ret snd]. rewrite after_reads_ops, length_map. simpl. lia.
  - intros Hm [key Hslug].
    rewrite (handler_delete_slug _ _ req now w key Hm Hslug) by by apply Hw.
    simpl. lia.
  - intros Hm. unfold handler. rewrite (handler_try_post _ _ Hm).
    destruct (post_case_total req)
      as [Hb|Hb|v Hb Hv Hf|o x Hb Hx Hs Hn Ht|o s Hb Hs Hne Ht].
    + rewrite handle_post_unparsed by done. cbn. lia.
    + rewrite handle_post_null by done. cbn. lia.
    + rewrite (handle_post_missing _ _ _ _ v) by done. cbn. lia.
    + rewrite (handle_post_slug_not_string _ _ _ _ o x) by done. cbn. lia.
    + rewrite (handle_post_valid _ _ _ _ _ Hb Hs Hne Ht).
      rewrite save_article_run by done. intros _. simpl. lia.
Qed.

(** *** The order of a listing *)

Lemma insert_sorted_dated d x l :
  dated getTime d (insert_sorted (by_date getTime) x l)
  = dated getTime d (x :: l).
Proof.
  unfold dated. induction l as [|y l IH]; [done|].
  cbn [insert_sorted].
  destruct (by_date getTime x y <=? 0)%Z eqn:E; [done|].
  apply Z.leb_gt in E. cbn [List.filter]. rewrite IH. cbn [List.filter].
  assert (date_of getTime x <> date_of getTime y) as Hne.
  { unfold by_date, date_of in *.
    destruct (getTime (member y "publishedAt")),
      (getTime (member x "publishedAt")); try lia.
    intros [= ->]. lia. }
  repeat case_bool_decide; try done. congruence.
Qed.

Lemma array_sort_dated d l :
  dated getTime d (array_sort (by_date getTime) l) = dated getTime d l.
Proof.
  induction l as [|x l IH]; [done|]. cbn [array_sort].
  rewrite insert_sorted_dated. unfold dated in *. cbn [List.filter].
  by rewrite IH.
Qed.

Lemma undated_in_order l :
  Forall (fun a => date_of getTime a = None) l ->
  Sorted (not_after (by_date getTime)) l.
Proof.
  induction 1 as [|x l Hx Hl IH]; constructor; [done|].
  destruct l as [|y l]; constructor.
  unfold not_after, by_date, date_of in *. rewrite Hx.
  by destruct (getTime (member y "publishedAt")).
Qed.

(** X16.  In a listing whose dates all parse, articles with the same
    [publishedAt] time come in the order in which the store enumerates
    them: for every time, the listed articles of that time are the
    published articles of that time, in store order. *)
Theorem listing_ties_keep_store_order req now w :
  method req = "GET" ->
  path_slug (pathname req) = None ->
  store_reliable w ->
  NoDup (map fst (blobs w)) ->
  Forall (fun a => is_Some (date_of getTime a)) (published (blobs w)) ->
  exists articles,
    (handler toLowerCase getTime req now w).1 = json_response 200 (JArr articles) /\
    forall t, dated getTime (Some t) articles
              = dated getTime (Some t) (published (blobs w)).
Proof.
  intros Hm Hslug Hw Hnd _. unfold handler.
  rewrite (handler_try_get _ _ Hm), Hslug. cbn [handle_get].
  rewrite list_articles_run by done. cbn [fst].
  eexists. split; [done|]. intros t. apply array_sort_dated.
Qed.

(** X17.  In a listing none of whose dates parses, the published articles
    come in the order in which the store enumerates them. *)
Theorem listing_without_dates_keeps_store_order req now w :
  method req = "GET" ->
  path_slug (pathname req) = None ->
  store_reliable w ->
  NoDup (map fst (blobs w)) ->
  Forall (fun a => date_of getTime a = None) (published (blobs w)) ->
  (handler toLowerCase getTime req now w).1
  = json_response 200 (JArr (published (blobs w))).
Proof.
  intros Hm Hslug Hw Hnd Hnone. unfold handler.
  rewrite (handler_try_get _ _ Hm), Hslug. cbn [handle_get].
  rewrite list_articles_run by done. cbn [fst].
  by rewrite array_sort_in_order by by apply undated_in_order.
Qed.

End MoreHandler.

(** ** The further properties at concrete requests *)

Lemma only_post_and_delete_write_witness :
  let b := [("a", JObj (article "a" "A" "published" "2024-01-01"))] in
  blobs (run (get_request "/api/articles") noon (failing_world b)).2 = b /\
  blobs (run (get_request "/api/articles/a") noon (quiet_world b)).2 = b.
Proof.
  intros b. split.
  - apply (only_post_and_delete_write ascii_lower getTime_date_only
             (get_request "/api/articles") noon (failing_world b));
      discriminate.
  - apply (only_post_and_delete_write ascii_lower getTime_date_only
             (get_request "/api/articles/a") noon (quiet_world b));
      discriminate.
Defined.

Lemma only_addressed_key_changes_witness :
  let o : gmap string json := {[ "slug" := JStr "A B"; "title" := JStr "T" ]} in
  let req := post_request (JObj o) in
  (method req = "POST" /\
   exists o' s, reqJson req = Some (JObj o') /\ o' !! "slug" = Some (JStr s) /\
                "a-b" = sanitize ascii_lower s) \/
  (method req = "DELETE" /\ path_slug (pathname req) = Some "a-b").
Proof.
  intros o req.
  apply (only_addressed_key_changes ascii_lower getTime_date_only
           req noon (quiet_world []) "a-b").
  vm_compute. discriminate.
Defined.

Lemma stored_example_ok :
  store_ok
    [("a", JObj {[ "slug" := JStr "a"; "title" := JStr "A";
                   "createdAt" := JStr noon; "updatedAt" := JStr noon ]})].
Proof.
  repeat constructor; try reflexivity.
  eexists. repeat split; reflexivity.
Qed.

Lemma handler_keeps_store_ok_witness :
  let b := [("a", JObj {[ "slug" := JStr "a"; "title" := JStr "A";
                          "createdAt" := JStr noon; "updatedAt" := JStr noon ]})] in
  let o : gmap string json := {[ "slug" := JStr "B!"; "title" := JStr "T" ]} in
  store_ok (blobs (run (post_request (JObj o)) noon (quiet_world b)).2) /\
  map fst (blobs (run (post_request (JObj o)) noon (quiet_world b)).2) = ["a"; "b"].
Proof.
  intros b o. split; [|reflexivity].
  apply (handler_keeps_store_ok ascii_lower getTime_date_only
           (post_request (JObj o)) noon (quiet_world b));
    [reflexivity|apply stored_example_ok].
Defined.

Lemma raw_slug_addresses_nothing_witness :
  let b := [("a", JObj {[ "slug" := JStr "a"; "title" := JStr "A";
                          "createdAt" := JStr noon; "updatedAt" := JStr noon ]})] in
  (run (get_request "/api/articles/A") noon (quiet_world b)).1
  = json_response 404 (error_body "Article not found") /\
  (run (delete_request "/api/articles/A") noon (quiet_world b)).1
  = json_response 200 success_body /\
  blobs (run (delete_request "/api/articles/A") noon (quiet_world b)).2 = b.
Proof.
  intros b.
  destruct (raw_slug_addresses_nothing ascii_lower getTime_date_only
              (fun s _ => eq_refl) (get_request "/api/articles/A") noon
              (quiet_world b) "A") as [Hget _];
    [apply stored_example_ok|reflexivity|discriminate|reflexivity|].
  destruct (raw_slug_addresses_nothing ascii_lower getTime_date_only
              (fun s _ => eq_refl) (delete_request "/api/articles/A") noon
              (quiet_world b) "A") as [_ Hdel];
    [apply stored_example_ok|reflexivity|discriminate|reflexivity|].
  split; [by apply Hget|]. by apply Hdel.
Defined.

Lemma rejections_make_no_store_call_witness :
  let w := failing_world [] in
  (run (post_request (JObj {[ "title" := JStr "x" ]})) noon w).2 = w /\
  (run (delete_request "/api/articles") noon w).2 = w.
Proof.
  intros w. split.
  - apply (rejections_make_no_store_call ascii_lower getTime_date_only
             (post_request (JObj {[ "title" := JStr "x" ]})) noon w).
    left. reflexivity.
  - apply (rejections_make_no_store_call ascii_lower getTime_date_only
             (delete_request "/api/articles") noon w).
    left. reflexivity.
Defined.

Lemma post_then_get_witness :
  let o : gmap string json :=
    {[ "slug" := JStr "Hello World!"; "title" := JStr "Hi" ]} in
  let posted := run (post_request (JObj o)) noon (quiet_world []) in
  let got := run (get_request "/api/articles/hello-world") noon posted.2 in
  got.1 = json_response 200 (body posted.1) /\
  blobs got.2 = blobs posted.2.
Proof.
  intros o posted got.
  apply (post_then_get ascii_lower getTime_date_only
           (post_request (JObj o)) (get_request "/api/articles/hello-world")
           noon noon (quiet_world []) o "Hello World!");
    try reflexivity.
  apply quiet_world_reliable.
Defined.

Lemma second_post_updates_witness :
  let o1 : gmap string json :=
    {[ "slug" := JStr "Hello World!"; "title" := JStr "Hi";
       "excerpt" := JStr "first" ]} in
  let o2 : gmap string json :=
    {[ "slug" := JStr "hello-world"; "title" := JStr "Hi again" ]} in
  let first := run (post_request (JObj o1)) noon (quiet_world []) in
  let second := run (post_request (JObj o2)) "2024-07-02T08:30:00.000Z" first.2 in
  status second.1 = 200%Z /\
  member (body second.1) "createdAt" = Some (JStr noon) /\
  member (body second.1) "updatedAt" = Some (JStr "2024-07-02T08:30:00.000Z") /\
  member (body second.1) "excerpt" = None /\
  map fst (blobs second.2) = ["hello-world"].
Proof.
  intros o1 o2 first second. subst first second. unfold run.
  destruct (second_post_updates ascii_lower getTime_date_only
              (post_request (JObj o1)) (post_request (JObj o2))
              noon "2024-07-02T08:30:00.000Z" (quiet_world [])
              o1 "Hello World!" o2 "hello-world")
    as (Hst & Hc & Hu & _ & Hkeys & Hother);
    try reflexivity; [apply quiet_world_reliable|].
  split; [exact Hst|]. split; [rewrite Hc; reflexivity|].
  split; [exact Hu|].
  split; [rewrite Hother by discriminate; reflexivity|].
  rewrite Hkeys. reflexivity.
Defined.

Lemma delete_then_get_or_delete_witness :
  let w := quiet_world [("a", JObj (article "a" "A" "published" "2024-01-01"))] in
  let deleted := run (delete_request "/api/articles/a") noon w in
  (run (get_request "/api/articles/a") noon deleted.2).1
  = json_response 404 (error_body "Article not found") /\
  (run (delete_request "/api/articles/a") noon deleted.2).1
  = json_response 200 success_body /\
  blobs (run (delete_request "/api/articles/a") noon deleted.2).2 = [].
Proof.
  intros w deleted. subst deleted. unfold run.
  destruct (delete_then_get_or_delete ascii_lower getTime_date_only
              (delete_request "/api/articles/a") (get_request "/api/articles/a")
              noon noon w "a")
    as (_ & Hg & Ha & Hb);
    try reflexivity; [apply quiet_world_reliable|].
  split; [exact Hg|]. split; [exact Ha|]. rewrite Hb. reflexivity.
Defined.

Lemma store_calls_per_request_witness :
  let b := [("jan", JObj (article "jan" "January" "published" "2024-01-01"));
            ("wip", JObj (article "wip" "Draft" "draft" "2024-09-01"));
            ("jun", JObj (article "jun" "June" "published" "2024-06-01"))] in
  ops (run (get_request "/api/articles") noon (quiet_world b)).2 = 4 /\
  ops (run (get_request "/api/articles/jan") noon (quiet_world b)).2 = 1.
Proof.
  intros b.
  destruct (store_calls_per_request ascii_lower getTime_date_only
              (get_request "/api/articles") noon (quiet_world b))
    as (_ & Hlist & _); [apply quiet_world_reliable|].
  destruct (store_calls_per_request ascii_lower getTime_date_only
              (get_request "/api/articles/jan") noon (quiet_world b))
    as (Hget & _); [apply quiet_world_reliable|].
  split.
  - apply Hlist; reflexivity.
  - apply Hget; [reflexivity|by eexists].
Defined.

Lemma listing_ties_keep_store_order_witness :
  let first := JObj (article "x" "First" "published" "2024-01-01") in
  let newer := JObj (article "y" "Newer" "published" "2024-06-01") in
  let second := JObj (article "z" "Second" "published" "2024-01-01") in
  let w := quiet_world [("x", first); ("y", newer); ("z", second)] in
  exists articles,
    (run (get_request "/api/articles") noon w).1
    = json_response 200 (JArr articles) /\
    dated getTime_date_only (Some 1704067200000%Z) articles = [first; second].
Proof.
  intros first newer second w.
  destruct (listing_ties_keep_store_order ascii_lower getTime_date_only
              (get_request "/api/articles") noon w)
    as (articles & Hres & Hties);
    [reflexivity|reflexivity|apply quiet_world_reliable| | |].
  - by apply (bool_decide_unpack (NoDup (A := string) _)).
  - repeat constructor; by eexists.
  - exists articles. split; [exact Hres|]. rewrite Hties. reflexivity.
Defined.

Lemma listing_without_dates_keeps_store_order_witness :
  let a := JObj (article "b" "B" "published" "") in
  let b := JObj (article "a" "A" "published" "soon") in
  let w := quiet_world [("b", a); ("a", b)] in
  (run (get_request "/api/articles") noon w).1 = json_response 200 (JArr [a; b]).
Proof.
  intros a b w.
  apply (listing_without_dates_keeps_store_order ascii_lower getTime_date_only
           (get_request "/api/articles") noon w);
    [reflexivity|reflexivity|apply quiet_world_reliable| |].
  - by apply (bool_decide_unpack (NoDup (A := string) _)).
  - repeat constructor.
Defined.

(** ** Publishing *)

Lemma kv_get_In key v l : kv_get key l = Some v -> In v (map snd l).
Proof.
  induction l as [|[k v'] l IH]; simpl; [done|].
  destruct (String.eqb k key); [intros [= ->]; by left|]. auto.
Qed.

Section Publishing.

Variable toLowerCase : string -> string.
Variable getTime : option json -> option Z.

(** X18.  A posted article shows in the listing exactly when its body says
    [status: "published"]: after a successful POST, the listing holds the
    record the POST returned if and only if the [status] of the body is
    the string "published". *)
Theorem posted_article_is_listed_iff_published post list now now' w o s :
  method post = "POST" ->
  reqJson post = Some (JObj o) ->
  o !! "slug" = Some (JStr s) -> nonempty s = true ->
  truthy_opt (o !! "title") = true ->
  method list = "GET" -> path_slug (pathname list) = None ->
  store_reliable w ->
  NoDup (map fst (blobs w)) ->
  let posted := handler toLowerCase getTime post now w in
  exists articles,
    (handler toLowerCase getTime list now' posted.2).1
    = json_response 200 (JArr articles) /\
    (In (body posted.1) articles <-> o !! "status" = Some (JStr "published")).
Proof.
  intros Hpm Hb Hs Hne Ht Hlm Hls Hw Hnd posted. subst posted.
  rewrite (handler_post_valid toLowerCase getTime post now o s w Hpm Hb Hs Hne Ht Hw).
  cbn zeta. cbn [fst snd body json_response].
  set (key := sanitize toLowerCase s).
  set (saved := articleToSave o key (default JNull (kv_get key (blobs w))) now).
  set (w1 := with_blobs (kv_set key (JObj saved) (blobs w)) (with_blobs (blobs w) w)).
  assert (store_reliable w1) as Hw1 by by do 2 apply store_reliable_with_blobs.
  assert (NoDup (map fst (blobs w1))) as Hnd1 by by apply kv_set_NoDup.
  unfold handler, handler_try. rewrite Hlm, Hls.
  cbn [String.eqb Ascii.eqb Bool.eqb handle_get].
  rewrite list_articles_run by done. cbn [fst].
  eexists. split; [done|].
  assert (saved !! "status" = o !! "status") as Hstatus
    by (unfold saved, articleToSave; by simplify_map_eq).
  split.
  - intros Hin.
    apply (Permutation_in _ (Permutation_sym (array_sort_perm _ _))) in Hin.
    apply filter_In in Hin as [_ Hpub].
    apply is_published_spec in Hpub as (o' & [= <-] & Hst). congruence.
  - intros Hst.
    apply (Permutation_in _ (array_sort_perm _ _)).
    apply filter_In. split.
    + apply (kv_get_In key). apply kv_get_set_eq.
    + apply is_published_spec. exists saved. split; [done|]. congruence.
Qed.

End Publishing.

Lemma posted_article_is_listed_iff_published_witness :
  let o := article "News" "News" "published" "2024-06-01" in
  let d := article "Notes" "Notes" "draft" "2024-06-01" in
  let posted := run (post_request (JObj o)) noon (quiet_world []) in
  let drafted := run (post_request (JObj d)) noon (quiet_world []) in
  (exists articles,
      (run (get_request "/api/articles") noon posted.2).1
      = json_response 200 (JArr articles) /\
      In (body posted.1) articles) /\
  (exists articles,
      (run (get_request "/api/articles") noon drafted.2).1
      = json_response 200 (JArr articles) /\
      ~ In (body drafted.1) articles).
Proof.
  intros o d posted drafted. subst posted drafted. unfold run. split.
  - destruct (posted_article_is_listed_iff_published ascii_lower getTime_date_only
                (post_request (JObj o)) (get_request "/api/articles")
                noon noon (quiet_world []) o "News")
      as (articles & Hres & Hiff);
      try reflexivity; [apply quiet_world_reliable|constructor|].
    exists articles. split; [exact Hres|]. apply Hiff. reflexivity.
  - destruct (posted_article_is_listed_iff_published ascii_lower getTime_date_only
                (post_request (JObj d)) (get_request "/api/articles")
                noon noon (quiet_world []) d "Notes")
      as (articles & Hres & Hiff);
      try reflexivity; [apply quiet_world_reliable|constructor|].
    exists articles. split; [exact Hres|]. intros Hin.
    apply Hiff in Hin. discriminate Hin.
Defined.
